(** * Verification of the networking-sfc Ansible modules of ansible-os-sfc

    Shallow embedding of the four modules under src/modules:
    os_sfc_port_pair.py, os_sfc_port_pair_group.py,
    os_sfc_flow_classifier.py and os_sfc_port_chain.py.

    Python values are modelled by [pyval]; a Python dict is an association
    list whose first binding of a key is the live one.  Each module function
    runs in a small writer/exception monad [M]: the writer part is the list
    of remote-store calls issued (the [cloud.*] calls), the exception part is
    how the module stops: [module.exit_json] and [module.fail_json] (both end
    the process through [SystemExit]) or an uncaught Python exception. *)

From Stdlib Require Import String List ZArith Bool Lia DecimalString.
From Stdlib Require Import Permutation.
Import ListNotations.
Open Scope string_scope.

(** ** Python values *)

#[local] Set Warnings "-register-all".

Inductive pyval : Type :=
| PNone
| PBool (b : bool)
| PInt (z : Z)
| PStr (s : string)
| PList (l : list pyval)
| PDict (d : list (string * pyval)).

Definition pydict := list (string * pyval).

(** Nested induction principle for [pyval]. *)
Section PyvalInd.
Variable P : pyval -> Prop.
Hypothesis HNone : P PNone.
Hypothesis HBool : forall b, P (PBool b).
Hypothesis HInt : forall z, P (PInt z).
Hypothesis HStr : forall s, P (PStr s).
Hypothesis HList : forall l, Forall P l -> P (PList l).
Hypothesis HDict : forall d, Forall (fun kv => P (snd kv)) d -> P (PDict d).

Fixpoint pyval_ind' (v : pyval) : P v :=
    match v with
    | PNone => HNone
    | PBool b => HBool b
    | PInt z => HInt z
    | PStr s => HStr s
    | PList l =>
        HList l ((fix go (l : list pyval) : Forall P l :=
                    match l with
                    | [] => Forall_nil _
                    | x :: xs => Forall_cons _ (pyval_ind' x) (go xs)
                    end) l)
    | PDict d =>
        HDict d ((fix go (d : list (string * pyval))
                    : Forall (fun kv => P (snd kv)) d :=
                    match d with
                    | [] => Forall_nil _
                    | kv :: rest => Forall_cons _ (pyval_ind' (snd kv)) (go rest)
                    end) d)
    end.
End PyvalInd.

(** The live binding of a key in a dict. *)
Fixpoint dict_lookup (k : string) (d : pydict) : option pyval :=
  match d with
  | [] => None
  | (k', v) :: rest => if String.eqb k k' then Some v else dict_lookup k rest
  end.

Definition keys (d : pydict) : list string := map fst d.

Definition str_mem (k : string) (l : list string) : bool :=
  existsb (String.eqb k) l.

(** Python [==].  [bool] is a subclass of [int], so [True == 1]; two dicts
    are equal when they bind the same keys to equal values. *)
Fixpoint py_eqb (a b : pyval) {struct a} : bool :=
  match a, b with
  | PNone, PNone => true
  | PBool x, PBool y => Bool.eqb x y
  | PBool x, PInt z => Z.eqb (if x then 1 else 0)%Z z
  | PInt z, PBool x => Z.eqb z (if x then 1 else 0)%Z
  | PInt x, PInt y => Z.eqb x y
  | PStr x, PStr y => String.eqb x y
  | PList l1, PList l2 =>
      (fix go (l1 l2 : list pyval) : bool :=
         match l1, l2 with
         | [], [] => true
         | x :: xs, y :: ys => py_eqb x y && go xs ys
         | _, _ => false
         end) l1 l2
  | PDict d1, PDict d2 =>
      (fix sub (d : pydict) (seen : list string) : bool :=
         match d with
         | [] => true
         | (k, v) :: rest =>
             (str_mem k seen ||
              match dict_lookup k d2 with
              | Some v' => py_eqb v v'
              | None => false
              end) && sub rest (k :: seen)
         end) d1 []
      && forallb (fun k => str_mem k (keys d1)) (keys d2)
  | _, _ => false
  end.

(** Python [!=]. *)
Definition py_ne (a b : pyval) : bool := negb (py_eqb a b).

Definition is_not_none (v : pyval) : bool :=
  match v with PNone => false | _ => true end.

(** Truth value of [if v:] / [if not v:]. *)
Definition truthy (v : pyval) : bool :=
  match v with
  | PNone => false
  | PBool b => b
  | PInt z => negb (Z.eqb z 0)
  | PStr s => negb (String.eqb s "")
  | PList l => match l with [] => false | _ => true end
  | PDict d => match d with [] => false | _ => true end
  end.

(** Characters are the code points 0 to 255 (Latin-1).  [str.isprintable]
    on them: everything but the C0 and C1 controls, DEL, the no-break
    space U+00A0 and the soft hyphen U+00AD. *)
Definition is_printable (c : Ascii.ascii) : bool :=
  let n := Ascii.nat_of_ascii c in
  (((32 <=? n) && (n <? 127)) || ((161 <=? n) && negb (n =? 173)))%nat.

Definition hex_digit (n : nat) : Ascii.ascii :=
  Ascii.ascii_of_nat (if (n <? 10)%nat then (48 + n)%nat else (87 + n)%nat).

Definition backslash : Ascii.ascii := Ascii.ascii_of_nat 92%nat.
Definition dquote : Ascii.ascii := Ascii.ascii_of_nat 34%nat.
Definition squote : Ascii.ascii := Ascii.ascii_of_nat 39%nat.

(** A backslash followed by the characters [cs]. *)
Definition escaped (cs : list Ascii.ascii) : string :=
  String backslash (string_of_list_ascii cs).

(** One character of [repr] of a string delimited by [quote]. *)
Definition repr_char (quote c : Ascii.ascii) : string :=
  let n := Ascii.nat_of_ascii c in
  if Ascii.eqb c quote || (n =? 92)%nat then escaped [c]
  else if (n =? 9)%nat then escaped [Ascii.ascii_of_nat 116%nat]
  else if (n =? 10)%nat then escaped [Ascii.ascii_of_nat 110%nat]
  else if (n =? 13)%nat then escaped [Ascii.ascii_of_nat 114%nat]
  else if is_printable c then String c EmptyString
  else escaped [Ascii.ascii_of_nat 120%nat; hex_digit (n / 16)%nat; hex_digit (n mod 16)%nat].

Fixpoint str_has (c : Ascii.ascii) (s : string) : bool :=
  match s with
  | EmptyString => false
  | String d r => Ascii.eqb c d || str_has c r
  end.

Fixpoint repr_chars (quote : Ascii.ascii) (s : string) : string :=
  match s with
  | EmptyString => EmptyString
  | String c r => repr_char quote c ++ repr_chars quote r
  end.

(** [repr] of a string: single quotes, unless the string holds a single
    quote and no double quote. *)
Definition str_repr (s : string) : string :=
  let quote := if str_has squote s && negb (str_has dquote s) then dquote else squote in
  String quote (repr_chars quote s ++ String quote EmptyString).

(** [repr(v)]: what [str] shows of the elements of a list or a dict. *)
Fixpoint py_repr (v : pyval) : string :=
  match v with
  | PNone => "None"
  | PBool true => "True"
  | PBool false => "False"
  | PInt z => NilZero.string_of_int (Z.to_int z)
  | PStr s => str_repr s
  | PList l =>
      "[" ++ (fix go (l : list pyval) : string :=
                match l with
                | [] => ""
                | [x] => py_repr x
                | x :: xs => py_repr x ++ ", " ++ go xs
                end) l ++ "]"
  | PDict d =>
      "{" ++ (fix go (d : list (string * pyval)) : string :=
                match d with
                | [] => ""
                | [(k, x)] => str_repr k ++ ": " ++ py_repr x
                | (k, x) :: rest => str_repr k ++ ": " ++ py_repr x ++ ", " ++ go rest
                end) d ++ "}"
  end.

(** [str(v)], as used by the ['%s' %] formatting of the error messages:
    a string as it is, any other value as its [repr]. *)
Definition py_str (v : pyval) : string :=
  match v with
  | PStr s => s
  | _ => py_repr v
  end.

(** Python exceptions the modules can raise without catching them. *)
Inductive exc : Type :=
| NameError (name : string)
| KeyError (key : string)
| TypeError (msg : string)
| AttributeError (msg : string).

(** Results of pure Python operations that may raise. *)
Definition R (A : Type) := (A + exc)%type.

Definition type_name (v : pyval) : string :=
  match v with
  | PNone => "NoneType" | PBool _ => "bool" | PInt _ => "int"
  | PStr _ => "str" | PList _ => "list" | PDict _ => "dict"
  end.

(** [o[key]] with a string key. *)
Definition getitem (o : pyval) (key : string) : R pyval :=
  match o with
  | PDict d =>
      match dict_lookup key d with
      | Some v => inl v
      | None => inr (KeyError key)
      end
  | _ => inr (TypeError ("'" ++ type_name o ++ "' object is not subscriptable"))
  end.

(** The attribute lookup [o.get] of a call [o.get(key, default)]. *)
Definition get_attr (o : pyval) : R unit :=
  match o with
  | PDict _ => inl tt
  | _ => inr (AttributeError ("'" ++ type_name o ++ "' object has no attribute 'get'"))
  end.

(** [o.get(key, default)] once the attribute and the default are evaluated. *)
Definition dict_get (o : pyval) (key : string) (default : pyval) : R pyval :=
  match o with
  | PDict d =>
      match dict_lookup key d with
      | Some v => inl v
      | None => inl default
      end
  | _ => inr (AttributeError ("'" ++ type_name o ++ "' object has no attribute 'get'"))
  end.

(** [d[key] = v] on a dict: an existing key keeps its place. *)
Fixpoint dict_set (d : pydict) (k : string) (v : pyval) : pydict :=
  match d with
  | [] => [(k, v)]
  | (k', v') :: rest =>
      if String.eqb k k' then (k', v) :: rest else (k', v') :: dict_set rest k v
  end.

Definition hashable (v : pyval) : bool :=
  match v with PList _ | PDict _ => false | _ => true end.

Fixpoint chars (s : string) : list pyval :=
  match s with
  | EmptyString => []
  | String c rest => PStr (String c EmptyString) :: chars rest
  end.

(** The elements of [set(v)] (duplicates are harmless for the comparisons
    made below). *)
Definition py_set (v : pyval) : R (list pyval) :=
  match v with
  | PList l =>
      if forallb hashable l then inl l
      else inr (TypeError "unhashable type")
  | PStr s => inl (chars s)
  | PDict d => inl (map (fun kv => PStr (fst kv)) d)
  | _ => inr (TypeError ("'" ++ type_name v ++ "' object is not iterable"))
  end.

Definition py_in (x : pyval) (l : list pyval) : bool := existsb (py_eqb x) l.

(** [set(a) == set(b)] on the elements of both sets. *)
Definition set_eqb (a b : list pyval) : bool :=
  forallb (fun x => py_in x b) a && forallb (fun y => py_in y a) b.

(** Iteration [for x in v:]. *)
Definition py_iter (v : pyval) : R (list pyval) :=
  match v with
  | PList l => inl l
  | PStr s => inl (chars s)
  | PDict d => inl (map (fun kv => PStr (fst kv)) d)
  | _ => inr (TypeError ("'" ++ type_name v ++ "' object is not iterable"))
  end.

(** ** Calls to the remote store and the monad of a module run *)

Inductive kind : Type :=
| KPort | KPortPair | KPortPairGroup | KFlowClassifier | KPortChain.

Inductive call : Type :=
| Get (k : kind) (name_or_id : pyval)
| Create (k : kind) (kwargs : pydict)
| Update (k : kind) (id : pyval) (kwargs : pydict)
| Delete (k : kind) (id : pyval).

Definition is_mutating (c : call) : bool :=
  match c with Get _ _ => false | _ => true end.

(** How a run of a module ends. *)
Inductive stop : Type :=
| Exit (changed : bool) (extras : pydict)   (** [module.exit_json] *)
| Fail (msg : string)                       (** [module.fail_json] *)
| Crash (e : exc).                          (** uncaught exception *)

(** A computation: the calls it issued, then a value or a stop. *)
Definition M (A : Type) : Type := (list call * (A + stop))%type.

Definition ret {A} (a : A) : M A := ([], inl a).

Definition bind {A B} (m : M A) (k : A -> M B) : M B :=
  match m with
  | (t, inl a) => let (t', r) := k a in (app t t', r)
  | (t, inr s) => (t, inr s)
  end.

Notation "x <- c1 ;; c2" := (bind c1 (fun x => c2))
  (at level 61, c1 at next level, right associativity).

Definition lift {A} (r : R A) : M A :=
  match r with
  | inl a => ([], inl a)
  | inr e => ([], inr (Crash e))
  end.

Definition raise {A} (e : exc) : M A := ([], inr (Crash e)).
Definition fail_json {A} (msg : string) : M A := ([], inr (Fail msg)).
Definition exit_json {A} (changed : bool) (extras : pydict) : M A :=
  ([], inr (Exit changed extras)).

(** [for key in keys: ... return True] followed by the fall-through. *)
Fixpoint for_any (l : list string) (body : string -> M bool) : M bool :=
  match l with
  | [] => ret false
  | k :: ks => b <- body k ;; if b then ret true else for_any ks body
  end.

(** ** The AnsibleModule

    [argument_spec] gives every option a default, so [module.params[key]]
    is defined for each option; an option the caller left out is [None].
    [state] is validated against its [choices]. *)

Inductive State : Type := Present | Absent.

Record module : Type := {
  params : pydict;
  state : State;
  check_mode : bool
}.

Definition param (m : module) (k : string) : pyval :=
  match dict_lookup k (params m) with Some v => v | None => PNone end.

(** ** The remote store (the shade cloud object)

    An external collaborator: [get_*] finds an object whose name or id is
    the argument; [create_*] returns the object built from the keyword
    arguments, with a fresh id and [None] for every field not supplied;
    [update_*] returns the object with the keyword arguments merged in. *)

Record cloud : Type := {
  c_ports : list pyval;
  c_port_pairs : list pyval;
  c_port_pair_groups : list pyval;
  c_flow_classifiers : list pyval;
  c_port_chains : list pyval;
  c_next_id : string
}.

Definition objects (cl : cloud) (k : kind) : list pyval :=
  match k with
  | KPort => c_ports cl
  | KPortPair => c_port_pairs cl
  | KPortPairGroup => c_port_pair_groups cl
  | KFlowClassifier => c_flow_classifiers cl
  | KPortChain => c_port_chains cl
  end.

Definition field_or_none (o : pyval) (f : string) : pyval :=
  match o with
  | PDict d => match dict_lookup f d with Some v => v | None => PNone end
  | _ => PNone
  end.

Definition matches (key o : pyval) : bool :=
  py_eqb (field_or_none o "name") key || py_eqb (field_or_none o "id") key.

Definition find_obj (l : list pyval) (key : pyval) : pyval :=
  match find (matches key) l with Some o => o | None => PNone end.

(** Fields of each resource as the store returns them. *)
Definition schema (k : kind) : list string :=
  match k with
  | KPort => ["name"]
  | KPortPair => ["name"; "ingress"; "egress"; "service_function_parameters"]
  | KPortPairGroup => ["name"; "port_pairs"; "port_pair_group_parameters"]
  | KFlowClassifier =>
      ["name"; "ethertype"; "protocol"; "source_port_range_min";
       "source_port_range_max"; "destination_port_range_min";
       "destination_port_range_max"; "source_ip_prefix";
       "destination_ip_prefix"; "logical_source_port";
       "logical_destination_port"; "l7_parameters"]
  | KPortChain =>
      ["name"; "port_pair_groups"; "flow_classifiers"; "chain_parameters";
       "chain_id"]
  end.

Definition created_obj (cl : cloud) (k : kind) (kw : pydict) : pyval :=
  PDict (("id", PStr (c_next_id cl))
           :: map (fun f => (f, match dict_lookup f kw with
                                 | Some v => v | None => PNone end))
                  (schema k)).

Definition updated_obj (cl : cloud) (k : kind) (id : pyval) (kw : pydict) : pyval :=
  match find_obj (objects cl k) id with
  | PDict d => PDict (fold_left (fun acc kv => dict_set acc (fst kv) (snd kv)) kw d)
  | _ => PDict (("id", id) :: kw)
  end.

Definition cloud_get (cl : cloud) (k : kind) (name_or_id : pyval) : M pyval :=
  ([Get k name_or_id], inl (find_obj (objects cl k) name_or_id)).

Definition cloud_create (cl : cloud) (k : kind) (kw : pydict) : M pyval :=
  ([Create k kw], inl (created_obj cl k kw)).

Definition cloud_update (cl : cloud) (k : kind) (id : pyval) (kw : pydict) : M pyval :=
  ([Update k id kw], inl (updated_obj cl k id kw)).

Definition cloud_delete (cl : cloud) (k : kind) (id : pyval) : M unit :=
  ([Delete k id], inl tt).

(** The store after a create: the new object is listed first. *)
Definition with_objects (cl : cloud) (k : kind) (l : list pyval) : cloud :=
  match k with
  | KPort => {| c_ports := l; c_port_pairs := c_port_pairs cl;
                c_port_pair_groups := c_port_pair_groups cl;
                c_flow_classifiers := c_flow_classifiers cl;
                c_port_chains := c_port_chains cl; c_next_id := c_next_id cl |}
  | KPortPair => {| c_ports := c_ports cl; c_port_pairs := l;
                c_port_pair_groups := c_port_pair_groups cl;
                c_flow_classifiers := c_flow_classifiers cl;
                c_port_chains := c_port_chains cl; c_next_id := c_next_id cl |}
  | KPortPairGroup => {| c_ports := c_ports cl; c_port_pairs := c_port_pairs cl;
                c_port_pair_groups := l;
                c_flow_classifiers := c_flow_classifiers cl;
                c_port_chains := c_port_chains cl; c_next_id := c_next_id cl |}
  | KFlowClassifier => {| c_ports := c_ports cl; c_port_pairs := c_port_pairs cl;
                c_port_pair_groups := c_port_pair_groups cl;
                c_flow_classifiers := l;
                c_port_chains := c_port_chains cl; c_next_id := c_next_id cl |}
  | KPortChain => {| c_ports := c_ports cl; c_port_pairs := c_port_pairs cl;
                c_port_pair_groups := c_port_pair_groups cl;
                c_flow_classifiers := c_flow_classifiers cl;
                c_port_chains := l; c_next_id := c_next_id cl |}
  end.

(** Apply a mutating call to the store. *)
Definition commit (cl : cloud) (c : call) : cloud :=
  match c with
  | Get _ _ => cl
  | Create k kw => with_objects cl k (created_obj cl k kw :: objects cl k)
  | Update k id kw =>
      with_objects cl k (map (fun o => if matches id o then updated_obj cl k id kw else o)
                             (objects cl k))
  | Delete k id => with_objects cl k (filter (fun o => negb (matches id o)) (objects cl k))
  end.

Definition commit_all (cl : cloud) (t : list call) : cloud := fold_left commit t cl.

Definition is_none (v : pyval) : bool := negb (is_not_none v).

(** [kwargs = {}; for p in optional_parameters: if params[p] is not None:
    kwargs[p] = params[p]]. *)
Definition collect_params (m : module) (optional_parameters : list string) : pydict :=
  fold_left (fun kw p => if is_not_none (param m p) then dict_set kw p (param m p) else kw)
            optional_parameters [].

(** ** os_sfc_port_pair.py

    The store's operations never raise in this model, so the
    [except shade.OpenStackCloudException] handler of [main] is not
    reached and is left out. *)
Module PortPair.

Definition _needs_update (m : module) (pp ports : pyval) : M bool :=
  let compare_simple := ["ingress"; "egress"] in
  let compare_dict := ["service_function_parameters"] in
  b <- for_any compare_simple (fun key =>
         u <- lift (get_attr ports) ;;
         d <- lift (getitem pp key) ;;
         value <- lift (dict_get ports key d) ;;
         ret (is_not_none (param m key) && py_ne (param m key) value)) ;;
  if b then ret true else
  for_any compare_dict (fun key =>
    if is_not_none (param m key) then
      cur <- lift (getitem pp key) ;; ret (py_ne (param m key) cur)
    else ret false).

Definition _system_state_change (m : module) (pp ports : pyval) : M bool :=
  match state m with
  | Present => if negb (truthy pp) then ret true else _needs_update m pp ports
  | Absent => ret (truthy pp)
  end.

Definition _compose_port_pair_args (m : module) : pydict :=
  collect_params m ["name"; "ingress"; "egress"; "service_function_parameters"].

(** Without [ingress] (or [egress]) and with [fail_on_error=False] the
    function executes [return port_ids], a name it never defined. *)
Definition _ports_get_ids (m : module) (cl : cloud) (fail_on_error : bool) : M pyval :=
  let ports_ids : pydict := [] in
  let ingress := param m "ingress" in
  if negb (truthy ingress) then
    if fail_on_error
    then fail_json "Parameter 'ingress' is required in Sfc Port Pair Create"
    else raise (NameError "port_ids")
  else
  let egress := param m "egress" in
  if negb (truthy egress) then
    if fail_on_error
    then fail_json "Parameter 'egress' is required in Sfc Port Pair Create"
    else raise (NameError "port_ids")
  else
  ingress_port <- cloud_get cl KPort ingress ;;
  ports_ids <- (if is_none ingress_port then
                  if fail_on_error then fail_json "Specified ingress port was not found."
                  else ret ports_ids
                else i <- lift (getitem ingress_port "id") ;;
                     ret (dict_set ports_ids "ingress" i)) ;;
  egress_port <- cloud_get cl KPort egress ;;
  ports_ids <- (if is_none egress_port then
                  if fail_on_error then fail_json "Specified egress port was not found."
                  else ret ports_ids
                else e <- lift (getitem egress_port "id") ;;
                     ret (dict_set ports_ids "egress" e)) ;;
  ret (PDict ports_ids).

Definition main (m : module) (cl : cloud) : M unit :=
  let name := param m "name" in
  pp <- (if truthy name then cloud_get cl KPortPair name else ret PNone) ;;
  if check_mode m then
    ports <- _ports_get_ids m cl false ;;
    c <- _system_state_change m pp ports ;;
    exit_json c []
  else
  match state m with
  | Present =>
      ports <- _ports_get_ids m cl true ;;
      if negb (truthy pp) then
        let pp_kwargs := _compose_port_pair_args m in
        i <- lift (getitem ports "ingress") ;;
        let pp_kwargs := dict_set pp_kwargs "ingress" i in
        e <- lift (getitem ports "egress") ;;
        let pp_kwargs := dict_set pp_kwargs "egress" e in
        pp <- cloud_create cl KPortPair pp_kwargs ;;
        id <- lift (getitem pp "id") ;;
        exit_json true [("id", id); ("port_pair", pp)]
      else
        b <- _needs_update m pp ports ;;
        if b then
          let pp_kwargs := _compose_port_pair_args m in
          id <- lift (getitem pp "id") ;;
          pp <- cloud_update cl KPortPair id pp_kwargs ;;
          id <- lift (getitem pp "id") ;;
          exit_json true [("id", id); ("port_pair", pp)]
        else
          id <- lift (getitem pp "id") ;;
          exit_json false [("id", id); ("port_pair", pp)]
  | Absent =>
      if truthy pp then
        id <- lift (getitem pp "id") ;;
        u <- cloud_delete cl KPortPair id ;;
        exit_json true []
      else exit_json false []
  end.

End PortPair.

(** ** os_sfc_port_pair_group.py *)
Module PortPairGroup.

Definition _needs_update (m : module) (ppg port_pairs : pyval) : M bool :=
  let compare_dict := ["port_pair_group_parameters"] in
  s1 <- lift (py_set port_pairs) ;;
  cur <- lift (getitem ppg "port_pairs") ;;
  s2 <- lift (py_set cur) ;;
  if negb (set_eqb s1 s2) then ret true else
  for_any compare_dict (fun key =>
    if is_not_none (param m key) then
      cur <- lift (getitem ppg key) ;; ret (py_ne (param m key) cur)
    else ret false).

Definition _system_state_change (m : module) (ppg port_pairs : pyval) : M bool :=
  match state m with
  | Present => if negb (truthy ppg) then ret true else _needs_update m ppg port_pairs
  | Absent => ret (truthy ppg)
  end.

Definition _compose_port_pair_group_args (m : module) (port_pairs : pyval) : pydict :=
  dict_set (collect_params m ["name"; "port_pair_group_parameters"]) "port_pairs" port_pairs.

(** The loop of [_port_pairs_get_ids]: [port_pairs] is the list built so far. *)
Fixpoint resolve_port_pairs (cl : cloud) (fail_on_error : bool)
         (names : list pyval) (port_pairs : list pyval) : M (list pyval) :=
  match names with
  | [] => ret port_pairs
  | pp_name :: rest =>
      pp <- cloud_get cl KPortPair pp_name ;;
      u <- (if is_none pp && fail_on_error
            then fail_json ("Specified port pair `" ++ py_str pp_name ++ "' was not found.")
            else ret tt) ;;
      i <- lift (getitem pp "id") ;;
      resolve_port_pairs cl fail_on_error rest (port_pairs ++ [i])%list
  end.

Definition _port_pairs_get_ids (m : module) (cl : cloud) (fail_on_error : bool) : M pyval :=
  let port_pair_ids := param m "port_pairs" in
  if negb (truthy port_pair_ids) then
    if fail_on_error
    then fail_json "Parameter 'port_pairs' is required in Sfc Port Pair Group Create"
    else ret PNone
  else
  names <- lift (py_iter port_pair_ids) ;;
  port_pairs <- resolve_port_pairs cl fail_on_error names [] ;;
  ret (PList port_pairs).

(** Python resolves a global name when the call is executed.  The update
    branch of [main] calls [_compose_port_pair_groups_args], a name the
    module never defines; [namespace] is the module's global functions of
    that shape (they build a dict without calling the store), [globals]
    the ones the module does define. *)
Definition compose_fn := module -> cloud -> pyval -> R pydict.

Definition namespace := string -> option compose_fn.

Definition globals : namespace :=
  fun s => if String.eqb s "_compose_port_pair_group_args"
           then Some (fun m _ port_pairs => inl (_compose_port_pair_group_args m port_pairs))
           else None.

Definition call_global (ns : namespace) (name : string) (m : module) (cl : cloud)
           (port_pairs : pyval) : M pydict :=
  match ns name with
  | Some f => lift (f m cl port_pairs)
  | None => raise (NameError name)
  end.

Definition main_in (ns : namespace) (m : module) (cl : cloud) : M unit :=
  let name := param m "name" in
  ppg <- (if truthy name then cloud_get cl KPortPairGroup name else ret PNone) ;;
  if check_mode m then
    port_pairs_ids <- _port_pairs_get_ids m cl false ;;
    c <- _system_state_change m ppg port_pairs_ids ;;
    exit_json c []
  else
  match state m with
  | Present =>
      port_pairs_ids <- _port_pairs_get_ids m cl true ;;
      if negb (truthy ppg) then
        ppg_kwargs <- call_global ns "_compose_port_pair_group_args" m cl port_pairs_ids ;;
        ppg <- cloud_create cl KPortPairGroup ppg_kwargs ;;
        id <- lift (getitem ppg "id") ;;
        exit_json true [("id", id); ("port_pair_group", ppg)]
      else
        b <- _needs_update m ppg port_pairs_ids ;;
        if b then
          ppg_kwargs <- call_global ns "_compose_port_pair_groups_args" m cl port_pairs_ids ;;
          id <- lift (getitem ppg "id") ;;
          ppg <- cloud_update cl KPortPair id ppg_kwargs ;;
          id <- lift (getitem ppg "id") ;;
          exit_json true [("id", id); ("port_pair_group", ppg)]
        else
          id <- lift (getitem ppg "id") ;;
          exit_json false [("id", id); ("port_pair_group", ppg)]
  | Absent =>
      if truthy ppg then
        id <- lift (getitem ppg "id") ;;
        u <- cloud_delete cl KPortPairGroup id ;;
        exit_json true []
      else exit_json false []
  end.

Definition main (m : module) (cl : cloud) : M unit := main_in globals m cl.

End PortPairGroup.

(** [key in o] for a dict [o]. *)
Definition py_contains (o : pyval) (key : string) : R bool :=
  match o with
  | PDict d => inl (match dict_lookup key d with Some _ => true | None => false end)
  | _ => inr (TypeError ("argument of type '" ++ type_name o ++ "' is not iterable"))
  end.

(** ** os_sfc_flow_classifier.py *)
Module FlowClassifier.

Definition compare_simple : list string :=
  ["ethertype"; "protocol"; "source_port_range_min"; "source_port_range_max";
   "destination_port_range_min"; "destination_port_range_max";
   "source_ip_prefix"; "destination_ip_prefix"; "logical_source_port";
   "logical_destination_port"].

Definition _needs_update (m : module) (fc ports : pyval) : M bool :=
  let compare_dict := ["l7_parameters"] in
  b <- for_any compare_simple (fun key =>
         u <- lift (get_attr ports) ;;
         d <- lift (getitem fc key) ;;
         value <- lift (dict_get ports key d) ;;
         ret (is_not_none (param m key) && py_ne (param m key) value)) ;;
  if b then ret true else
  for_any compare_dict (fun key =>
    if is_not_none (param m key) then
      cur <- lift (getitem fc key) ;; ret (py_ne (param m key) cur)
    else ret false).

Definition _system_state_change (m : module) (fc ports : pyval) : M bool :=
  match state m with
  | Present => if negb (truthy fc) then ret true else _needs_update m fc ports
  | Absent => ret (truthy fc)
  end.

Definition _compose_flow_classifier_args (m : module) (ports : pyval) : M pydict :=
  let fc_kwargs :=
    collect_params m ["name"; "ethertype"; "protocol"; "source_port_range_min";
                      "source_port_range_max"; "destination_port_range_min";
                      "destination_port_range_max"; "source_ip_prefix";
                      "destination_ip_prefix"; "l7_parameters"] in
  has_src <- lift (py_contains ports "logical_source_port") ;;
  fc_kwargs <- (if has_src then
                  v <- lift (getitem ports "logical_source_port") ;;
                  ret (dict_set fc_kwargs "logical_source_port" v)
                else ret fc_kwargs) ;;
  has_dst <- lift (py_contains ports "logical_destination_port") ;;
  if has_dst then
    v <- lift (getitem ports "logical_destination_port") ;;
    ret (dict_set fc_kwargs "logical_destination_port" v)
  else ret fc_kwargs.

(** One lookup of [_ports_get_ids]: the port named by option [key]. *)
Definition resolve_port (m : module) (cl : cloud) (fail_on_error : bool)
           (key msg : string) (ports_ids : pydict) : M pydict :=
  let v := param m key in
  if is_not_none v then
    p <- cloud_get cl KPort v ;;
    if is_none p then
      if fail_on_error then fail_json msg else ret ports_ids
    else
      i <- lift (getitem p "id") ;; ret (dict_set ports_ids key i)
  else ret ports_ids.

Definition _ports_get_ids (m : module) (cl : cloud) (fail_on_error : bool) : M pyval :=
  ports_ids <- resolve_port m cl fail_on_error "logical_source_port"
                 "Specified logical source port was not found." [] ;;
  ports_ids <- resolve_port m cl fail_on_error "logical_destination_port"
                 "Specified logical destination port was not found." ports_ids ;;
  ret (PDict ports_ids).

(** [main] calls [_ports_get_ids(module, cloud)], whose default is
    [fail_on_error=False]. *)
Definition main (m : module) (cl : cloud) : M unit :=
  let name := param m "name" in
  fc <- (if truthy name then cloud_get cl KFlowClassifier name else ret PNone) ;;
  if check_mode m then
    ports <- _ports_get_ids m cl false ;;
    c <- _system_state_change m fc ports ;;
    exit_json c []
  else
  match state m with
  | Present =>
      ports <- _ports_get_ids m cl false ;;
      if negb (truthy fc) then
        fc_kwargs <- _compose_flow_classifier_args m ports ;;
        fc <- cloud_create cl KFlowClassifier fc_kwargs ;;
        id <- lift (getitem fc "id") ;;
        exit_json true [("id", id); ("flow_classifier", fc)]
      else
        b <- _needs_update m fc ports ;;
        if b then
          fc_kwargs <- _compose_flow_classifier_args m ports ;;
          id <- lift (getitem fc "id") ;;
          fc <- cloud_update cl KFlowClassifier id fc_kwargs ;;
          id <- lift (getitem fc "id") ;;
          exit_json true [("id", id); ("flow_classifier", fc)]
        else
          id <- lift (getitem fc "id") ;;
          exit_json false [("id", id); ("flow_classifier", fc)]
  | Absent =>
      if truthy fc then
        id <- lift (getitem fc "id") ;;
        u <- cloud_delete cl KFlowClassifier id ;;
        exit_json true []
      else exit_json false []
  end.

End FlowClassifier.

(** Attribute access on the [AnsibleModule] object: it has [params]. *)
Definition module_attr (m : module) (attr : string) : R pyval :=
  if String.eqb attr "params" then inl (PDict (params m))
  else inr (AttributeError ("'AnsibleModule' object has no attribute '" ++ attr ++ "'")).

(** ** os_sfc_port_chain.py *)
Module PortChain.

(** The [compare_list] loop of [_needs_update]; the loop variable [value]
    outlives the loop and is returned with the early-return flag.  Its
    condition reads [module.param[key]]. *)
Fixpoint compare_list_loop (m : module) (pc pc_ids : pyval) (ks : list string)
         (value : pyval) : M (bool * pyval) :=
  match ks with
  | [] => ret (false, value)
  | key :: rest =>
      u <- lift (get_attr pc_ids) ;;
      d <- lift (getitem pc key) ;;
      value <- lift (dict_get pc_ids key d) ;;
      if is_not_none (param m key) then
        mp <- lift (module_attr m "param") ;;
        given <- lift (getitem mp key) ;;
        s1 <- lift (py_set given) ;;
        s2 <- lift (py_set value) ;;
        if negb (set_eqb s1 s2) then ret (true, value)
        else compare_list_loop m pc pc_ids rest value
      else compare_list_loop m pc pc_ids rest value
  end.

(** The [compare_simple = ['chain_id']] loop has a single iteration and is
    written out; its [value] is the one the [compare_list] loop starts
    from.  The [compare_dict] loop compares with [value], the variable of
    the previous loop. *)
Definition _needs_update (m : module) (pc pc_ids : pyval) : M bool :=
  let compare_list := ["port_pair_groups"; "flow_classifiers"] in
  let compare_dict := ["chain_parameters"] in
  u <- lift (get_attr pc_ids) ;;
  d <- lift (getitem pc "chain_id") ;;
  value <- lift (dict_get pc_ids "chain_id" d) ;;
  if is_not_none (param m "chain_id") && py_ne (param m "chain_id") value then ret true else
  r <- compare_list_loop m pc pc_ids compare_list value ;;
  let (found, value) := r in
  if found then ret true else
  for_any compare_dict (fun key =>
    ret (is_not_none (param m key) && py_ne (param m key) value)).

Definition _system_state_change (m : module) (pc pc_ids : pyval) : M bool :=
  match state m with
  | Present => if negb (truthy pc) then ret true else _needs_update m pc pc_ids
  | Absent => ret (truthy pc)
  end.

Fixpoint compose_loop (m : module) (pc_ids : pyval) (ps : list string)
         (pc_kwargs : pydict) : M pydict :=
  match ps with
  | [] => ret pc_kwargs
  | p :: rest =>
      if is_not_none (param m p) then
        u <- lift (get_attr pc_ids) ;;
        value <- lift (dict_get pc_ids p (param m p)) ;;
        compose_loop m pc_ids rest (dict_set pc_kwargs p value)
      else compose_loop m pc_ids rest pc_kwargs
  end.

Definition _compose_port_chain_args (m : module) (pc_ids : pyval) : M pydict :=
  compose_loop m pc_ids ["name"; "port_pair_groups"; "flow_classifiers";
                         "chain_parameters"; "chain_id"] [].

(** A [for name in names:] loop of [_port_chains_get_ids]; [None] stands
    for its [return None]. *)
Fixpoint resolve_refs (cl : cloud) (fail_on_error : bool) (k : kind)
         (names : list pyval) (ids : list pyval) : M (option (list pyval)) :=
  match names with
  | [] => ret (Some ids)
  | n :: rest =>
      o <- cloud_get cl k n ;;
      if is_none o then
        if fail_on_error
        then fail_json ("Specified port pair group `" ++ py_str n ++ "' wat not found.")
        else ret None
      else
        i <- lift (getitem o "id") ;;
        resolve_refs cl fail_on_error k rest (ids ++ [i])%list
  end.

Definition _port_chains_get_ids (m : module) (cl : cloud) (fail_on_error : bool) : M pyval :=
  let ppg_names := param m "port_pair_groups" in
  if negb (truthy ppg_names) then
    if fail_on_error
    then fail_json "Parameter 'port_pair_groups' is required in Sfc Port Chain Create"
    else ret PNone
  else
  ns <- lift (py_iter ppg_names) ;;
  r <- resolve_refs cl fail_on_error KPortPairGroup ns [] ;;
  match r with
  | None => ret PNone
  | Some ppg_ids =>
      let fc_names := param m "flow_classifiers" in
      if negb (truthy fc_names) then
        if fail_on_error
        then fail_json "Parameter 'flow_classifiers' is required in Sfc Port Chain Create"
        else ret PNone
      else
      ns <- lift (py_iter fc_names) ;;
      r <- resolve_refs cl fail_on_error KFlowClassifier ns [] ;;
      match r with
      | None => ret PNone
      | Some fc_ids =>
          ret (PDict [("port_pair_groups", PList ppg_ids);
                      ("flow_classifiers", PList fc_ids)])
      end
  end.

Definition main (m : module) (cl : cloud) : M unit :=
  let name := param m "name" in
  pc <- (if truthy name then cloud_get cl KPortChain name else ret PNone) ;;
  if check_mode m then
    pc_ids <- _port_chains_get_ids m cl false ;;
    c <- _system_state_change m pc pc_ids ;;
    exit_json c []
  else
  match state m with
  | Present =>
      pc_ids <- _port_chains_get_ids m cl true ;;
      if negb (truthy pc) then
        pc_kwargs <- _compose_port_chain_args m pc_ids ;;
        pc <- cloud_create cl KPortChain pc_kwargs ;;
        id <- lift (getitem pc "id") ;;
        exit_json true [("id", id); ("port_chain", pc)]
      else
        b <- _needs_update m pc pc_ids ;;
        if b then
          pc_kwargs <- _compose_port_chain_args m pc_ids ;;
          id <- lift (getitem pc "id") ;;
          pc <- cloud_update cl KPortChain id pc_kwargs ;;
          id <- lift (getitem pc "id") ;;
          exit_json true [("id", id); ("port_chain", pc)]
        else
          id <- lift (getitem pc "id") ;;
          exit_json false [("id", id); ("port_chain", pc)]
  | Absent =>
      if truthy pc then
        id <- lift (getitem pc "id") ;;
        u <- cloud_delete cl KPortChain id ;;
        exit_json true []
      else exit_json false []
  end.

End PortChain.

(** ** The four modules as one entry point *)

Inductive resource : Type := RPortPair | RPortPairGroup | RFlowClassifier | RPortChain.

Definition run (r : resource) : module -> cloud -> M unit :=
  match r with
  | RPortPair => PortPair.main
  | RPortPairGroup => PortPairGroup.main
  | RFlowClassifier => FlowClassifier.main
  | RPortChain => PortChain.main
  end.

Definition trace {A} (c : M A) : list call := fst c.
Definition outcome {A} (c : M A) : (A + stop) := snd c.

Definition mutations (t : list call) : list call := filter is_mutating t.

(** ** Reasoning about the calls a run issues *)

Lemma trace_bind {A B} (c : M A) (k : A -> M B) :
  trace (bind c k) =
  (trace c ++ match outcome c with inl a => trace (k a) | inr _ => [] end)%list.
Proof.
  destruct c as [t [a|s]]; cbn; [destruct (k a); reflexivity | now rewrite app_nil_r].
Qed.

Lemma outcome_bind {A B} (c : M A) (k : A -> M B) :
  outcome (bind c k) = match outcome c with inl a => outcome (k a) | inr s => inr s end.
Proof. destruct c as [t [a|s]]; cbn; [destruct (k a)|]; reflexivity. Qed.

(** Every call of the trace satisfies [P]. *)
Definition Calls (P : call -> Prop) {A} (c : M A) : Prop :=
  forall x, In x (trace c) -> P x.

(** No call of the trace satisfies [p]. *)
Abbreviation Avoid p := (Calls (fun x => p x = false)).

(** [P] holds of every read-only lookup. *)
Definition GetsOk (P : call -> Prop) : Prop := forall k key, P (Get k key).

Definition AtMost1 {A} (c : M A) : Prop := length (mutations (trace c)) <= 1.

Create HintDb calls.

Section CallsRules.
Variable P : call -> Prop.

Lemma calls_bind {A B} (c : M A) (k : A -> M B) :
    Calls P c -> (forall a, outcome c = inl a -> Calls P (k a)) -> Calls P (bind c k).
  Proof.
    unfold Calls; intros Hc Hk x Hx; rewrite trace_bind in Hx.
    apply in_app_or in Hx as [Hx|Hx]; [auto|].
    destruct (outcome c) as [a|s] eqn:E; [exact (Hk a eq_refl x Hx) | destruct Hx].
  Qed.

Lemma calls_ret {A} (a : A) : Calls P (ret a).
  Proof. intros x []. Qed.
Lemma calls_lift {A} (r : R A) : Calls P (lift r).
  Proof. destruct r; intros x []. Qed.
Lemma calls_raise {A} e : Calls P (@raise A e).
  Proof. intros x []. Qed.
Lemma calls_fail {A} msg : Calls P (@fail_json A msg).
  Proof. intros x []. Qed.
Lemma calls_exit {A} b ex : Calls P (@exit_json A b ex).
  Proof. intros x []. Qed.
Lemma calls_get cl k key : GetsOk P -> Calls P (cloud_get cl k key).
  Proof. intros H x [<-|[]]; apply H. Qed.
Lemma calls_create cl k kw : P (Create k kw) -> Calls P (cloud_create cl k kw).
  Proof. intros H x [<-|[]]; exact H. Qed.
Lemma calls_update cl k id kw : P (Update k id kw) -> Calls P (cloud_update cl k id kw).
  Proof. intros H x [<-|[]]; exact H. Qed.
Lemma calls_delete cl k id : P (Delete k id) -> Calls P (cloud_delete cl k id).
  Proof. intros H x [<-|[]]; exact H. Qed.
Lemma calls_for_any l body : (forall k, Calls P (body k)) -> Calls P (for_any l body).
  Proof.
    intros H; induction l as [|k ks IH]; cbn [for_any]; [apply calls_ret|].
    apply calls_bind; auto; intros [] _; auto using calls_ret.
  Qed.
End CallsRules.

#[export] Hint Resolve calls_ret calls_lift calls_raise calls_fail calls_exit
  calls_get calls_create calls_update calls_delete : calls.
#[export] Hint Extern 1 => (cbv beta; reflexivity) : calls.

Lemma gets_ok_mutating : GetsOk (fun x => is_mutating x = false).
Proof. intros k key; reflexivity. Qed.
#[export] Hint Resolve gets_ok_mutating : calls.

Lemma avoid_mutations {A} (c : M A) : Avoid is_mutating c -> mutations (trace c) = [].
Proof.
  unfold Calls, mutations; generalize (trace c); intros t H; induction t as [|x t IH]; cbn; auto.
  rewrite (H x (or_introl eq_refl)); apply IH; intros y Hy; apply H; now right.
Qed.

Lemma mutations_app t1 t2 : mutations (t1 ++ t2) = (mutations t1 ++ mutations t2)%list.
Proof. unfold mutations; apply filter_app. Qed.

Lemma at1_bind_nm {A B} (c : M A) (k : A -> M B) :
  Avoid is_mutating c -> (forall a, AtMost1 (k a)) -> AtMost1 (bind c k).
Proof.
  unfold AtMost1; intros Hc Hk; rewrite trace_bind, mutations_app, (avoid_mutations c Hc); cbn.
  destruct (outcome c); [apply Hk | cbn; lia].
Qed.

Lemma at1_bind_mn {A B} (c : M A) (k : A -> M B) :
  AtMost1 c -> (forall a, Avoid is_mutating (k a)) -> AtMost1 (bind c k).
Proof.
  unfold AtMost1; intros Hc Hk; rewrite trace_bind, mutations_app, length_app.
  destruct (outcome c); [rewrite (avoid_mutations _ (Hk _))|]; cbn; lia.
Qed.

Lemma at1_avoid {A} (c : M A) : Avoid is_mutating c -> AtMost1 c.
Proof. unfold AtMost1; intros H; rewrite (avoid_mutations c H); cbn; lia. Qed.

Lemma at1_create cl k kw : AtMost1 (cloud_create cl k kw).
Proof. unfold AtMost1; cbn; lia. Qed.
Lemma at1_update cl k id kw : AtMost1 (cloud_update cl k id kw).
Proof. unfold AtMost1; cbn; lia. Qed.
Lemma at1_delete cl k id : AtMost1 (cloud_delete cl k id).
Proof. unfold AtMost1; cbn; lia. Qed.
#[export] Hint Resolve at1_create at1_update at1_delete : calls.

(** Walk a computation: split binds, case on tests, close the leaves. *)
Ltac calls_tac :=
  repeat (intros; cbv beta iota zeta;
          match goal with
          | |- Calls _ (bind _ _) => apply calls_bind
          | |- Calls _ (for_any _ _) => apply calls_for_any
          | |- Calls _ (match ?x with _ => _ end) => destruct x eqn:?
          | |- Calls _ _ => solve [eauto with calls]
          end).

Ltac at1_tac :=
  repeat (intros; cbv beta iota zeta;
          match goal with
          | |- AtMost1 (bind _ _) =>
              first [ apply at1_bind_nm; [solve [calls_tac] |]
                    | apply at1_bind_mn; [solve [at1_tac] |] ]
          | |- AtMost1 (match ?x with _ => _ end) => destruct x
          | |- AtMost1 _ => first [ solve [eauto with calls]
                                  | apply at1_avoid; solve [calls_tac] ]
          | |- Calls _ _ => calls_tac
          end).

(** The helpers of the modules only read the store. *)
Section ReadOnlyHelpers.
Variable P : call -> Prop.
Hypothesis Hp : GetsOk P.


Lemma calls_resolve_port_pairs cl f names acc :
    Calls P (PortPairGroup.resolve_port_pairs cl f names acc).
  Proof. revert acc; induction names as [|n ns IH]; cbn [PortPairGroup.resolve_port_pairs]; calls_tac. Qed.

Lemma calls_resolve_refs cl f k names acc :
    Calls P (PortChain.resolve_refs cl f k names acc).
  Proof. revert acc; induction names as [|n ns IH]; cbn [PortChain.resolve_refs]; calls_tac. Qed.

Lemma calls_compare_list_loop m pc pc_ids ks v :
    Calls P (PortChain.compare_list_loop m pc pc_ids ks v).
  Proof. revert v; induction ks as [|k ks IH]; cbn [PortChain.compare_list_loop]; calls_tac. Qed.

Lemma calls_compose_loop m pc_ids ps kw :
    Calls P (PortChain.compose_loop m pc_ids ps kw).
  Proof. revert kw; induction ps as [|q ps IH]; cbn [PortChain.compose_loop]; calls_tac. Qed.
End ReadOnlyHelpers.
#[export] Hint Resolve calls_for_any calls_resolve_port_pairs calls_resolve_refs
  calls_compare_list_loop calls_compose_loop : calls.

Section ModuleHelpers.
Variable P : call -> Prop.
Hypothesis Hp : GetsOk P.

Lemma calls_pp_needs_update m pp ports : Calls P (PortPair._needs_update m pp ports).
  Proof. unfold PortPair._needs_update; calls_tac. Qed.
Lemma calls_pp_state_change m pp ports : Calls P (PortPair._system_state_change m pp ports).
  Proof. unfold PortPair._system_state_change; calls_tac; apply calls_pp_needs_update. Qed.
Lemma calls_pp_get_ids m cl f : Calls P (PortPair._ports_get_ids m cl f).
  Proof. unfold PortPair._ports_get_ids; calls_tac. Qed.

Lemma calls_ppg_needs_update m ppg pps : Calls P (PortPairGroup._needs_update m ppg pps).
  Proof. unfold PortPairGroup._needs_update; calls_tac. Qed.
Lemma calls_ppg_state_change m ppg pps : Calls P (PortPairGroup._system_state_change m ppg pps).
  Proof. unfold PortPairGroup._system_state_change; calls_tac; apply calls_ppg_needs_update. Qed.
Lemma calls_ppg_get_ids m cl f : Calls P (PortPairGroup._port_pairs_get_ids m cl f).
  Proof. unfold PortPairGroup._port_pairs_get_ids; calls_tac. Qed.
Lemma calls_call_global ns name m cl pps : Calls P (PortPairGroup.call_global ns name m cl pps).
  Proof. unfold PortPairGroup.call_global; calls_tac. Qed.

Lemma calls_fc_needs_update m fc ports : Calls P (FlowClassifier._needs_update m fc ports).
  Proof. unfold FlowClassifier._needs_update; calls_tac. Qed.
Lemma calls_fc_state_change m fc ports : Calls P (FlowClassifier._system_state_change m fc ports).
  Proof. unfold FlowClassifier._system_state_change; calls_tac; apply calls_fc_needs_update. Qed.
Lemma calls_fc_compose m ports : Calls P (FlowClassifier._compose_flow_classifier_args m ports).
  Proof. unfold FlowClassifier._compose_flow_classifier_args; calls_tac. Qed.
Lemma calls_fc_resolve_port m cl f key msg ids :
    Calls P (FlowClassifier.resolve_port m cl f key msg ids).
  Proof. unfold FlowClassifier.resolve_port; calls_tac. Qed.
Lemma calls_fc_get_ids m cl f : Calls P (FlowClassifier._ports_get_ids m cl f).
  Proof. unfold FlowClassifier._ports_get_ids; calls_tac; apply calls_fc_resolve_port. Qed.

Lemma calls_pc_needs_update m pc ids : Calls P (PortChain._needs_update m pc ids).
  Proof. unfold PortChain._needs_update; calls_tac. Qed.
Lemma calls_pc_state_change m pc ids : Calls P (PortChain._system_state_change m pc ids).
  Proof. unfold PortChain._system_state_change; calls_tac; apply calls_pc_needs_update. Qed.
Lemma calls_pc_compose m ids : Calls P (PortChain._compose_port_chain_args m ids).
  Proof. unfold PortChain._compose_port_chain_args; calls_tac. Qed.
Lemma calls_pc_get_ids m cl f : Calls P (PortChain._port_chains_get_ids m cl f).
  Proof. unfold PortChain._port_chains_get_ids; calls_tac. Qed.
End ModuleHelpers.
#[export] Hint Resolve calls_pp_needs_update calls_pp_state_change calls_pp_get_ids
  calls_ppg_needs_update calls_ppg_state_change calls_ppg_get_ids calls_call_global
  calls_fc_needs_update calls_fc_state_change calls_fc_compose calls_fc_get_ids
  calls_pc_needs_update calls_pc_state_change calls_pc_compose calls_pc_get_ids : calls.

Lemma at1_main r m cl : AtMost1 (run r m cl).
Proof.
  destruct r; cbn [run];
    unfold PortPair.main, PortPairGroup.main, PortPairGroup.main_in,
           FlowClassifier.main, PortChain.main; at1_tac.
Qed.

(** A computation that, if it stops, stops through an exception or through
    an [exit_json] that reports only [changed]. *)
Definition Quiet {A} (c : M A) : Prop :=
  forall s, outcome c = inr s -> (exists e, s = Crash e) \/ (exists b, s = Exit b []).

(** A computation that does stop, in one of those two ways. *)
Definition Ends {A} (c : M A) : Prop :=
  exists s, outcome c = inr s /\ ((exists e, s = Crash e) \/ (exists b, s = Exit b [])).

Lemma quiet_bind {A B} (c : M A) (k : A -> M B) :
  Quiet c -> (forall a, Quiet (k a)) -> Quiet (bind c k).
Proof.
  unfold Quiet; intros Hc Hk s; rewrite outcome_bind.
  destruct (outcome c) eqn:E; [apply Hk | intros [= <-]; now apply Hc].
Qed.

Lemma ends_bind {A B} (c : M A) (k : A -> M B) :
  Quiet c -> (forall a, Ends (k a)) -> Ends (bind c k).
Proof.
  unfold Quiet, Ends; intros Hc Hk; rewrite outcome_bind.
  destruct (outcome c) as [a|s] eqn:E; [apply Hk | exists s; split; auto].
Qed.

Lemma quiet_ret {A} (a : A) : Quiet (ret a).
Proof. intros s [=]. Qed.
Lemma quiet_lift {A} (r : R A) : Quiet (lift r).
Proof. destruct r; intros s [= <-]; eauto. Qed.
Lemma quiet_raise {A} e : Quiet (@raise A e).
Proof. intros s [= <-]; eauto. Qed.
Lemma quiet_get cl k key : Quiet (cloud_get cl k key).
Proof. intros s [=]. Qed.
Lemma ends_exit {A} b : Ends (@exit_json A b []).
Proof. exists (Exit b []); split; eauto. Qed.

Lemma quiet_for_any l body : (forall k, Quiet (body k)) -> Quiet (for_any l body).
Proof.
  intros H; induction l as [|k ks IH]; cbn [for_any]; [apply quiet_ret|].
  apply quiet_bind; auto; intros []; auto using quiet_ret.
Qed.

Create HintDb quiet.
#[export] Hint Resolve quiet_ret quiet_lift quiet_raise quiet_get ends_exit : quiet.

Ltac quiet_tac :=
  repeat (intros; cbv beta iota zeta;
          match goal with
          | |- Quiet (bind _ _) => apply quiet_bind
          | |- Ends (bind _ _) => apply ends_bind
          | |- Quiet (for_any _ _) => apply quiet_for_any
          | |- Quiet (match ?x with _ => _ end) => destruct x
          | |- Ends (match ?x with _ => _ end) => destruct x
          | |- _ => solve [eauto with quiet]
          end).

Lemma quiet_resolve_port_pairs cl names acc :
  Quiet (PortPairGroup.resolve_port_pairs cl false names acc).
Proof.
  revert acc; induction names as [|n ns IH]; intros acc;
    cbn [PortPairGroup.resolve_port_pairs]; [apply quiet_ret|].
  apply quiet_bind; [apply quiet_get|]; intros pp; rewrite andb_false_r; quiet_tac.
Qed.

Lemma quiet_resolve_refs cl k names acc : Quiet (PortChain.resolve_refs cl false k names acc).
Proof.
  revert acc; induction names as [|n ns IH]; intros acc; cbn [PortChain.resolve_refs]; quiet_tac.
Qed.

Lemma quiet_compare_list_loop m pc ids ks v : Quiet (PortChain.compare_list_loop m pc ids ks v).
Proof. revert v; induction ks as [|k ks IH]; cbn [PortChain.compare_list_loop]; quiet_tac. Qed.
#[export] Hint Resolve quiet_resolve_port_pairs quiet_resolve_refs quiet_compare_list_loop : quiet.

Lemma quiet_pp_get_ids m cl : Quiet (PortPair._ports_get_ids m cl false).
Proof. unfold PortPair._ports_get_ids; quiet_tac. Qed.
Lemma quiet_pp_state_change m pp ports : Quiet (PortPair._system_state_change m pp ports).
Proof. unfold PortPair._system_state_change, PortPair._needs_update; quiet_tac. Qed.
Lemma quiet_ppg_get_ids m cl : Quiet (PortPairGroup._port_pairs_get_ids m cl false).
Proof. unfold PortPairGroup._port_pairs_get_ids; quiet_tac. Qed.
Lemma quiet_ppg_state_change m ppg pps : Quiet (PortPairGroup._system_state_change m ppg pps).
Proof. unfold PortPairGroup._system_state_change, PortPairGroup._needs_update; quiet_tac. Qed.
Lemma quiet_fc_get_ids m cl : Quiet (FlowClassifier._ports_get_ids m cl false).
Proof. unfold FlowClassifier._ports_get_ids, FlowClassifier.resolve_port; quiet_tac. Qed.
Lemma quiet_fc_state_change m fc ports : Quiet (FlowClassifier._system_state_change m fc ports).
Proof. unfold FlowClassifier._system_state_change, FlowClassifier._needs_update; quiet_tac. Qed.
Lemma quiet_pc_get_ids m cl : Quiet (PortChain._port_chains_get_ids m cl false).
Proof. unfold PortChain._port_chains_get_ids; quiet_tac. Qed.
Lemma quiet_pc_state_change m pc ids : Quiet (PortChain._system_state_change m pc ids).
Proof. unfold PortChain._system_state_change, PortChain._needs_update; quiet_tac. Qed.
#[export] Hint Resolve quiet_pp_get_ids quiet_pp_state_change quiet_ppg_get_ids
  quiet_ppg_state_change quiet_fc_get_ids quiet_fc_state_change quiet_pc_get_ids
  quiet_pc_state_change : quiet.

Lemma check_mode_ends r m cl : check_mode m = true -> Ends (run r m cl).
Proof.
  intros H; destruct r; cbn [run];
    unfold PortPair.main, PortPairGroup.main, PortPairGroup.main_in,
           FlowClassifier.main, PortChain.main; rewrite H; quiet_tac.
Qed.

Lemma check_mode_avoid r m cl : check_mode m = true -> Avoid is_mutating (run r m cl).
Proof.
  intros H; destruct r; cbn [run];
    unfold PortPair.main, PortPairGroup.main, PortPairGroup.main_in,
           FlowClassifier.main, PortChain.main; rewrite H; calls_tac.
Qed.

(** [bind] on a computation whose result is known. *)
Lemma bind_known {A B} (c : M A) (k : A -> M B) t a :
  c = (t, inl a) -> bind c k = let (t', r) := k a in ((t ++ t')%list, r).
Proof. intros ->; reflexivity. Qed.

Lemma mutations_of_avoid {A} (c : M A) t a :
  Avoid is_mutating c -> c = (t, inl a) -> mutations t = [].
Proof. intros H E; apply avoid_mutations in H; rewrite E in H; exact H. Qed.

Definition is_group_update (x : call) : bool :=
  match x with Update KPortPairGroup _ _ => true | _ => false end.

Lemma gets_ok_group_update : GetsOk (fun x => is_group_update x = false).
Proof. intros k key; reflexivity. Qed.

Lemma ppg_main_in_no_group_update ns m cl : Avoid is_group_update (PortPairGroup.main_in ns m cl).
Proof.
  pose proof gets_ok_group_update.
  unfold PortPairGroup.main_in; calls_tac.
Qed.

(** The update branch of the port pair group [main], from the call of
    [_compose_port_pair_groups_args] on. *)
Definition ppg_update_tail (ns : PortPairGroup.namespace) (m : module) (cl : cloud)
           (port_pairs_ids ppg : pyval) : M unit :=
  ppg_kwargs <- PortPairGroup.call_global ns "_compose_port_pair_groups_args" m cl port_pairs_ids ;;
  id <- lift (getitem ppg "id") ;;
  ppg <- cloud_update cl KPortPair id ppg_kwargs ;;
  id <- lift (getitem ppg "id") ;;
  exit_json true [("id", id); ("port_pair_group", ppg)].

Section PpgUpdateBranch.
Variables (m : module) (cl : cloud) (ids : pyval) (t1 t2 : list call).
Let name := param m "name".
Let ppg := find_obj (c_port_pair_groups cl) name.
Hypotheses (Hcm : check_mode m = false) (Hst : state m = Present)
             (Hname : truthy name = true) (Hppg : truthy ppg = true)
             (Hids : PortPairGroup._port_pairs_get_ids m cl true = (t1, inl ids))
             (Hnu : PortPairGroup._needs_update m ppg ids = (t2, inl true)).

Lemma ppg_update_branch_run ns :
    PortPairGroup.main_in ns m cl =
    (Get KPortPairGroup name :: t1 ++ t2 ++ trace (ppg_update_tail ns m cl ids ppg),
     outcome (ppg_update_tail ns m cl ids ppg))%list.
  Proof.
    unfold PortPairGroup.main_in; fold name; rewrite Hname, Hcm, Hst.
    cbn [bind cloud_get objects]; fold ppg.
    rewrite (bind_known _ _ _ _ Hids); cbv beta.
    rewrite Hppg; cbn [negb].
    rewrite (bind_known _ _ _ _ Hnu); cbv beta iota.
    unfold ppg_update_tail; destruct (bind (PortPairGroup.call_global ns _ m cl ids) _) as [t3 r3]; reflexivity.
  Qed.

Lemma ppg_update_branch_prefix :
    mutations (Get KPortPairGroup name :: t1 ++ t2) = [].
  Proof.
    cbn [mutations filter is_mutating]; rewrite !mutations_app.
    rewrite (mutations_of_avoid _ _ _ (calls_ppg_get_ids _ gets_ok_mutating m cl true) Hids).
    rewrite (mutations_of_avoid _ _ _ (calls_ppg_needs_update _ m ppg ids) Hnu).
    reflexivity.
  Qed.

Lemma ppg_update_branch_crash :
    outcome (PortPairGroup.main m cl) = inr (Crash (NameError "_compose_port_pair_groups_args"))
    /\ mutations (trace (PortPairGroup.main m cl)) = [].
  Proof.
    unfold PortPairGroup.main; rewrite ppg_update_branch_run; cbn [trace outcome fst snd].
    unfold ppg_update_tail, PortPairGroup.call_global, PortPairGroup.globals; cbn.
    split; [reflexivity|].
    pose proof ppg_update_branch_prefix as E; cbn [mutations filter is_mutating] in E.
    now rewrite !mutations_app, app_nil_r in *.
  Qed.

Lemma ppg_update_branch_target ns f kw id :
    ns "_compose_port_pair_groups_args" = Some f -> f m cl ids = inl kw ->
    getitem ppg "id" = inl id ->
    mutations (trace (PortPairGroup.main_in ns m cl)) = [Update KPortPair id kw].
  Proof.
    intros Hns Hf Hid; rewrite ppg_update_branch_run; cbn [trace fst].
    replace (Get KPortPairGroup name :: t1 ++ t2 ++ trace (ppg_update_tail ns m cl ids ppg))%list
      with ((Get KPortPairGroup name :: t1 ++ t2) ++ trace (ppg_update_tail ns m cl ids ppg))%list
      by (cbn; now rewrite app_assoc).
    rewrite mutations_app, ppg_update_branch_prefix.
    unfold ppg_update_tail, PortPairGroup.call_global; rewrite Hns, Hf, Hid; cbn.
    destruct (getitem (updated_obj cl KPortPair id kw) "id"); reflexivity.
  Qed.
End PpgUpdateBranch.

(** ** Dict lemmas *)

Lemma dict_lookup_set d k k' v :
  dict_lookup k (dict_set d k' v) = if String.eqb k k' then Some v else dict_lookup k d.
Proof.
  induction d as [|[k0 v0] d IH]; cbn.
  - destruct (String.eqb k k'); reflexivity.
  - destruct (String.eqb k' k0) eqn:E0; cbn.
    + apply String.eqb_eq in E0; subst k0; destruct (String.eqb k k'); reflexivity.
    + rewrite IH; destruct (String.eqb k k') eqn:E; [|reflexivity].
      apply String.eqb_eq in E; subst k'; rewrite E0; reflexivity.
Qed.

Lemma collect_params_other m ps acc k :
  ~ In k ps ->
  dict_lookup k (fold_left (fun kw p => if is_not_none (param m p)
                                         then dict_set kw p (param m p) else kw) ps acc)
  = dict_lookup k acc.
Proof.
  revert acc; induction ps as [|p ps IH]; intros acc Hk; cbn; [reflexivity|].
  rewrite IH by (intro; apply Hk; now right).
  destruct (is_not_none (param m p)); [|reflexivity].
  rewrite dict_lookup_set; destruct (String.eqb k p) eqn:E; [|reflexivity].
  apply String.eqb_eq in E; subst; exfalso; apply Hk; now left.
Qed.

Lemma collect_params_lookup m ps k :
  is_not_none (param m k) = true -> In k ps ->
  dict_lookup k (collect_params m ps) = Some (param m k).
Proof.
  unfold collect_params; generalize (@nil (string * pyval)) as acc.
  induction ps as [|p ps IH]; intros acc Hn Hin; [destruct Hin|]; cbn.
  destruct (in_dec string_dec k ps) as [Hi|Hni]; [now apply IH|].
  destruct Hin as [<-|Hin]; [|contradiction].
  rewrite Hn, collect_params_other by exact Hni.
  rewrite dict_lookup_set, String.eqb_refl; reflexivity.
Qed.

Lemma truthy_not_none v : truthy v = true -> is_not_none v = true.
Proof. destruct v; cbn; congruence. Qed.

(** The object [main] works on is [None] unless a name was supplied. *)
Lemma looked_up_by_name m cl k pp :
  outcome (if truthy (param m "name") then cloud_get cl k (param m "name") else ret PNone)
  = inl pp -> truthy pp = true -> truthy (param m "name") = true.
Proof. destruct (truthy (param m "name")); cbn; [auto | intros [= <-]; discriminate]. Qed.

(** ** Update payloads *)

(** Every update call carries the supplied, non-empty name. *)
Definition name_in_update (m : module) (x : call) : Prop :=
  forall k id kw, x = Update k id kw ->
    dict_lookup "name" kw = Some (param m "name") /\ truthy (param m "name") = true.

Lemma gets_ok_name_in_update m : GetsOk (name_in_update m).
Proof. intros k key k' id kw [=]. Qed.
#[export] Hint Resolve gets_ok_name_in_update : calls.

Ltac step H := cbn [bind lift ret outcome snd fst] in H.

Lemma fc_compose_name m ports kw :
  outcome (FlowClassifier._compose_flow_classifier_args m ports) = inl kw ->
  is_not_none (param m "name") = true -> dict_lookup "name" kw = Some (param m "name").
Proof.
  unfold FlowClassifier._compose_flow_classifier_args; intros H Hn; cbv zeta in H.
  assert (H0 : dict_lookup "name"
                 (collect_params m ["name"; "ethertype"; "protocol"; "source_port_range_min";
                      "source_port_range_max"; "destination_port_range_min";
                      "destination_port_range_max"; "source_ip_prefix";
                      "destination_ip_prefix"; "l7_parameters"]) = Some (param m "name"))
    by (apply collect_params_lookup; cbn; tauto).
  revert H H0; generalize (collect_params m ["name"; "ethertype"; "protocol"; "source_port_range_min";
                      "source_port_range_max"; "destination_port_range_min";
                      "destination_port_range_max"; "source_ip_prefix";
                      "destination_ip_prefix"; "l7_parameters"]) as kw0; intros kw0 H H0.
  destruct (py_contains ports "logical_source_port") as [b1|e]; step H; [|discriminate].
  destruct b1; step H.
  - destruct (getitem ports "logical_source_port") as [v|e]; step H; [|discriminate].
    destruct (py_contains ports "logical_destination_port") as [b2|e]; step H; [|discriminate].
    destruct b2; step H.
    + destruct (getitem ports "logical_destination_port"); step H; [|discriminate].
      injection H as <-; rewrite !dict_lookup_set; exact H0.
    + injection H as <-; rewrite dict_lookup_set; exact H0.
  - destruct (py_contains ports "logical_destination_port") as [b2|e]; step H; [|discriminate].
    destruct b2; step H.
    + destruct (getitem ports "logical_destination_port"); step H; [|discriminate].
      injection H as <-; rewrite dict_lookup_set; exact H0.
    + injection H as <-; exact H0.
Qed.

(** Follow a computation known to return normally. *)
Ltac out_tac H :=
  repeat (cbv beta iota zeta in H;
          match type of H with
          | outcome (bind ?c _) = _ =>
              rewrite outcome_bind in H;
              let E := fresh "E" in
              destruct (outcome c) eqn:E; [|discriminate H]
          | outcome (match ?x with _ => _ end) = _ => destruct x eqn:?
          | outcome _ = _ => cbn [outcome ret fail_json exit_json raise snd] in H;
                             try discriminate H
          end).

Lemma pc_get_ids_shape m cl f v :
  outcome (PortChain._port_chains_get_ids m cl f) = inl v ->
  v = PNone \/ exists a b, v = PDict [("port_pair_groups", a); ("flow_classifiers", b)].
Proof.
  unfold PortChain._port_chains_get_ids; intros H; out_tac H;
    injection H as <-; eauto.
Qed.

Lemma pc_compose_loop_other m ids ps kw kw' :
  outcome (PortChain.compose_loop m ids ps kw) = inl kw' -> ~ In "name" ps ->
  dict_lookup "name" kw' = dict_lookup "name" kw.
Proof.
  revert kw; induction ps as [|q ps IH]; intros kw H Hn; cbn [PortChain.compose_loop] in H.
  - now injection H as <-.
  - out_tac H; rewrite (IH _ H) by (intro; apply Hn; now right);
      try (rewrite dict_lookup_set; destruct (String.eqb "name" q) eqn:Eq;
           [apply String.eqb_eq in Eq; subst; exfalso; apply Hn; now left|]);
      reflexivity.
Qed.

Lemma pc_compose_loop_cons m ids q ps kw :
  PortChain.compose_loop m ids (q :: ps) kw =
  if is_not_none (param m q) then
    u <- lift (get_attr ids) ;;
    value <- lift (dict_get ids q (param m q)) ;;
    PortChain.compose_loop m ids ps (dict_set kw q value)
  else PortChain.compose_loop m ids ps kw.
Proof. reflexivity. Qed.

Lemma pc_compose_name m cl ids kw :
  outcome (PortChain._port_chains_get_ids m cl true) = inl ids ->
  outcome (PortChain._compose_port_chain_args m ids) = inl kw ->
  is_not_none (param m "name") = true -> dict_lookup "name" kw = Some (param m "name").
Proof.
  intros Hids H Hn; unfold PortChain._compose_port_chain_args in H.
  rewrite pc_compose_loop_cons, Hn in H.
  destruct (pc_get_ids_shape _ _ _ _ Hids) as [->|(a & b & ->)]; [discriminate H|].
  assert (Edg : dict_get (PDict [("port_pair_groups", a); ("flow_classifiers", b)]) "name"
                         (param m "name") = inl (param m "name")) by reflexivity.
  rewrite outcome_bind in H; cbn [get_attr lift outcome snd] in H.
  rewrite outcome_bind, Edg in H; cbn [lift outcome snd] in H.
  rewrite (pc_compose_loop_other _ _ _ _ _ H); [reflexivity|].
  cbn; intuition discriminate.
Qed.

Lemma name_in_update_create m k kw : name_in_update m (Create k kw).
Proof. intros k' id kw' [=]. Qed.
Lemma name_in_update_delete m k id : name_in_update m (Delete k id).
Proof. intros k' id' kw' [=]. Qed.
#[export] Hint Resolve name_in_update_create name_in_update_delete : calls.

(** Close an update leaf: the object was found by name, so a name was
    supplied. *)
Ltac update_leaf :=
  apply calls_update; intros ? ? ? [= <- <- <-];
  match goal with
  | H : outcome (if truthy (param ?m "name") then _ else _) = inl ?pp,
    E : negb (truthy ?pp) = false |- _ =>
      apply negb_false_iff in E;
      pose proof (looked_up_by_name _ _ _ _ H E) as Hname;
      split; [|exact Hname]
  end.

Lemma pp_updates_carry_name m cl : Calls (name_in_update m) (PortPair.main m cl).
Proof.
  unfold PortPair.main; calls_tac; update_leaf.
  apply collect_params_lookup; [now apply truthy_not_none | cbn; tauto].
Qed.

Lemma ppg_updates_carry_name m cl : Calls (name_in_update m) (PortPairGroup.main m cl).
Proof.
  unfold PortPairGroup.main, PortPairGroup.main_in; calls_tac.
  (* the update branch stops at the unbound name before the update call *)
  all: match goal with
       | H : outcome (PortPairGroup.call_global PortPairGroup.globals
                        "_compose_port_pair_groups_args" _ _ _) = inl _ |- _ =>
           discriminate H
       end.
Qed.

Lemma fc_updates_carry_name m cl : Calls (name_in_update m) (FlowClassifier.main m cl).
Proof.
  unfold FlowClassifier.main; calls_tac; update_leaf.
  eapply fc_compose_name; [eassumption | now apply truthy_not_none].
Qed.

Lemma pc_updates_carry_name m cl : Calls (name_in_update m) (PortChain.main m cl).
Proof.
  unfold PortChain.main; calls_tac; update_leaf.
  eapply pc_compose_name; [eassumption | eassumption | now apply truthy_not_none].
Qed.

(** ** Required list-ref fields *)

(** A run stops where the dependency resolution stops. *)
Lemma lookup_then {A} (b : bool) (cl : cloud) (k : kind) (name : pyval) (c : pyval -> M A) s :
  (forall o, outcome (c o) = inr s /\ mutations (trace (c o)) = []) ->
  outcome (o <- (if b then cloud_get cl k name else ret PNone) ;; c o) = inr s
  /\ mutations (trace (o <- (if b then cloud_get cl k name else ret PNone) ;; c o)) = [].
Proof.
  intros H; rewrite outcome_bind, trace_bind, mutations_app.
  destruct b; cbn [outcome trace cloud_get ret snd fst mutations filter is_mutating app].
  - destruct (H (find_obj (objects cl k) name)) as [H1 H2]; split; assumption.
  - destruct (H PNone) as [H1 H2]; split; assumption.
Qed.

Lemma stop_then {A B} (c : M A) (k : A -> M B) s :
  outcome c = inr s -> Avoid is_mutating c ->
  outcome (bind c k) = inr s /\ mutations (trace (bind c k)) = [].
Proof.
  intros Ho Hc; rewrite outcome_bind, trace_bind, mutations_app, Ho, (avoid_mutations _ Hc).
  split; reflexivity.
Qed.

Lemma pc_main_stops m cl s :
  check_mode m = false -> state m = Present ->
  outcome (PortChain._port_chains_get_ids m cl true) = inr s ->
  outcome (PortChain.main m cl) = inr s /\ mutations (trace (PortChain.main m cl)) = [].
Proof.
  intros Hcm Hst Hs; unfold PortChain.main; apply lookup_then; intros o.
  rewrite Hcm, Hst; apply stop_then; [exact Hs | apply calls_pc_get_ids, gets_ok_mutating].
Qed.

Lemma ppg_main_stops m cl s :
  check_mode m = false -> state m = Present ->
  outcome (PortPairGroup._port_pairs_get_ids m cl true) = inr s ->
  outcome (PortPairGroup.main m cl) = inr s /\ mutations (trace (PortPairGroup.main m cl)) = [].
Proof.
  intros Hcm Hst Hs; unfold PortPairGroup.main, PortPairGroup.main_in; apply lookup_then; intros o.
  rewrite Hcm, Hst; apply stop_then; [exact Hs | apply calls_ppg_get_ids, gets_ok_mutating].
Qed.

(** With [fail_on_error=True] the loop of [_port_chains_get_ids] either
    resolves every name, or stops by [fail_json] or an exception. *)
Lemma resolve_refs_fail_true cl k names acc :
  (exists ids, outcome (PortChain.resolve_refs cl true k names acc) = inl (Some ids))
  \/ (exists s, outcome (PortChain.resolve_refs cl true k names acc) = inr s
                /\ ((exists msg, s = Fail msg) \/ (exists e, s = Crash e))).
Proof.
  revert acc; induction names as [|n ns IH]; intros acc; cbn [PortChain.resolve_refs].
  - left; eexists; reflexivity.
  - rewrite outcome_bind; cbn [cloud_get outcome snd].
    destruct (is_none (find_obj (objects cl k) n)).
    + right; eexists; split; [reflexivity | left; eexists; reflexivity].
    + rewrite outcome_bind; destruct (getitem (find_obj (objects cl k) n) "id") as [i|e];
        cbn [lift outcome snd]; [apply IH|].
      right; eexists; split; [reflexivity | right; eexists; reflexivity].
Qed.

Lemma getitem_ok_not_none o key i : getitem o key = inl i -> is_none o = false.
Proof. destruct o; cbn; congruence. Qed.

Lemma resolve_refs_all cl k names acc :
  Forall (fun n => exists i, getitem (find_obj (objects cl k) n) "id" = inl i) names ->
  exists ids, outcome (PortChain.resolve_refs cl true k names acc) = inl (Some ids).
Proof.
  intros H; revert acc; induction H as [|n ns [i Hi] _ IH]; intros acc; cbn [PortChain.resolve_refs].
  - eexists; reflexivity.
  - rewrite outcome_bind; cbn [cloud_get outcome snd].
    rewrite (getitem_ok_not_none _ _ _ Hi); cbn [negb].
    rewrite outcome_bind, Hi; cbn [lift outcome snd]; apply IH.
Qed.

(** Without flow classifiers, [_port_chains_get_ids] with
    [fail_on_error=True] stops, by [fail_json] or an exception. *)
Lemma pc_get_ids_no_fc m cl :
  truthy (param m "flow_classifiers") = false ->
  exists s, outcome (PortChain._port_chains_get_ids m cl true) = inr s
            /\ ((exists msg, s = Fail msg) \/ (exists e, s = Crash e)).
Proof.
  intros Hfc; unfold PortChain._port_chains_get_ids.
  destruct (truthy (param m "port_pair_groups")); cbn [negb].
  - rewrite outcome_bind; destruct (py_iter (param m "port_pair_groups")) as [ns|e];
      cbn [lift outcome snd].
    + rewrite outcome_bind.
      destruct (resolve_refs_fail_true cl KPortPairGroup ns []) as [[ids ->] | (s & -> & Hs)].
      * rewrite Hfc; cbn [negb]; eexists; split; [reflexivity | left; eexists; reflexivity].
      * exists s; split; [reflexivity | exact Hs].
    + eexists; split; [reflexivity | right; eexists; reflexivity].
  - eexists; split; [reflexivity | left; eexists; reflexivity].
Qed.

(** ** Running twice *)

(** The [sub] loop of [py_eqb] on dicts, with the dict it looks keys up in
    as an argument. *)
Fixpoint dict_sub (d2 : pydict) (d : pydict) (seen : list string) : bool :=
  match d with
  | [] => true
  | (k, v) :: rest =>
      (str_mem k seen ||
       match dict_lookup k d2 with Some v' => py_eqb v v' | None => false end)
      && dict_sub d2 rest (k :: seen)
  end.

Lemma py_eqb_dict d1 d2 :
  py_eqb (PDict d1) (PDict d2)
  = dict_sub d2 d1 [] && forallb (fun k => str_mem k (keys d1)) (keys d2).
Proof.
  cbn [py_eqb]; f_equal; generalize (@nil string).
  induction d1 as [|[k v] d1 IH]; intros seen; [reflexivity|].
  cbn [dict_sub]; rewrite <- IH; reflexivity.
Qed.

Lemma str_mem_refl k l : In k l -> str_mem k l = true.
Proof.
  intros H; apply existsb_exists; exists k; split; [exact H | apply String.eqb_refl].
Qed.

Lemma dict_lookup_app_notin k pre d :
  ~ In k (keys pre) -> dict_lookup k (pre ++ d)%list = dict_lookup k d.
Proof.
  induction pre as [|[k' v'] pre IH]; intros H; [reflexivity|].
  cbn [app dict_lookup]; destruct (String.eqb_spec k k') as [->|Hne].
  - exfalso; apply H; now left.
  - apply IH; intros Hi; apply H; now right.
Qed.

Lemma dict_sub_refl d2 pre rest seen :
  d2 = (pre ++ rest)%list ->
  Forall (fun kv => py_eqb (snd kv) (snd kv) = true) rest ->
  (forall k, In k (keys pre) -> str_mem k seen = true) ->
  dict_sub d2 rest seen = true.
Proof.
  revert pre seen; induction rest as [|[k v] rest IH]; intros pre seen E Hf Hs; [reflexivity|].
  inversion Hf as [|? ? Hv Hr]; subst; cbn [dict_sub].
  apply andb_true_intro; split.
  - destruct (str_mem k seen) eqn:Hk; [reflexivity|]; cbn [orb].
    rewrite dict_lookup_app_notin.
    + cbn [dict_lookup]; rewrite String.eqb_refl; exact Hv.
    + intros Hi; specialize (Hs _ Hi); congruence.
  - apply (IH (pre ++ [(k, v)])%list); [now rewrite <- app_assoc | exact Hr |].
    intros k' Hk'; unfold keys in Hk'; rewrite map_app, in_app_iff in Hk'.
    destruct Hk' as [Hk' | [Hk' | []]].
    + cbn [str_mem existsb]; apply orb_true_intro; right; now apply Hs.
    + cbn in Hk'; subst k'; cbn [str_mem existsb]; now rewrite String.eqb_refl.
Qed.

(** [v == v] for every value the model has (no floats, so no NaN). *)
Lemma py_eqb_refl v : py_eqb v v = true.
Proof.
  induction v as [| b | z | s | l Hl | d Hd] using pyval_ind'.
  - reflexivity.
  - apply Bool.eqb_reflx.
  - apply Z.eqb_refl.
  - apply String.eqb_refl.
  - induction Hl as [|x xs Hx _ IH]; [reflexivity|].
    cbn [py_eqb] in *; now rewrite Hx, IH.
  - rewrite py_eqb_dict; apply andb_true_intro; split.
    + apply (dict_sub_refl d []); [reflexivity | exact Hd | intros k []].
    + apply forallb_forall; intros k Hk; now apply str_mem_refl.
Qed.

Lemma py_ne_refl v : py_ne v v = false.
Proof. unfold py_ne; now rewrite py_eqb_refl. Qed.

Lemma set_eqb_refl l : set_eqb l l = true.
Proof.
  assert (H : forallb (fun x => py_in x l) l = true).
  { apply forallb_forall; intros x Hx; apply existsb_exists.
    exists x; split; [exact Hx | apply py_eqb_refl]. }
  unfold set_eqb; now rewrite H.
Qed.

Lemma commit_all_app cl t1 t2 :
  commit_all cl (t1 ++ t2)%list = commit_all (commit_all cl t1) t2.
Proof. apply fold_left_app. Qed.

Lemma commit_all_reads cl t : mutations t = [] -> commit_all cl t = cl.
Proof.
  revert cl; induction t as [|x t IH]; intros cl H; [reflexivity|].
  destruct x; cbn [mutations filter is_mutating] in H; try discriminate H.
  apply IH, H.
Qed.

Lemma getitem_found (l : list pyval) (key : pyval) (i : pyval) :
  getitem (find_obj l key) "id" = inl i -> is_none (find_obj l key) = false.
Proof. apply getitem_ok_not_none. Qed.

Lemma pp_get_ids_ok m cl :
  truthy (param m "ingress") = true -> truthy (param m "egress") = true ->
  getitem (find_obj (c_ports cl) (param m "ingress")) "id" = inl (param m "ingress") ->
  getitem (find_obj (c_ports cl) (param m "egress")) "id" = inl (param m "egress") ->
  PortPair._ports_get_ids m cl true
  = ([Get KPort (param m "ingress"); Get KPort (param m "egress")],
     inl (PDict [("ingress", param m "ingress"); ("egress", param m "egress")])).
Proof.
  intros Ti Te Gi Ge; unfold PortPair._ports_get_ids; cbv zeta.
  rewrite Ti, Te; cbv beta iota zeta delta [negb cloud_get objects bind].
  rewrite (getitem_found _ _ _ Gi), (getitem_found _ _ _ Ge), Gi, Ge; reflexivity.
Qed.

(** The first object of the list is found when it carries the name. *)
Lemma find_created cl k kw l name :
  dict_lookup "name" kw = Some name ->
  find_obj (created_obj cl k kw :: l) name = created_obj cl k kw.
Proof.
  intros H; unfold find_obj; cbn [find]; unfold matches.
  replace (field_or_none (created_obj cl k kw) "name") with name
    by (destruct k; cbn; rewrite H; reflexivity).
  now rewrite py_eqb_refl.
Qed.

(** A keyword payload that carries every supplied option among [fs]. *)
Definition carries (m : module) (kw : pydict) (fs : list string) : Prop :=
  forall f, In f fs -> is_not_none (param m f) = true -> dict_lookup f kw = Some (param m f).

Lemma carries_collect m ps fs :
  (forall f, In f fs -> In f ps) -> carries m (collect_params m ps) fs.
Proof. intros H f Hf Hn; apply collect_params_lookup; auto. Qed.

Lemma carries_set m kw fs k v :
  ~ In k fs -> carries m kw fs -> carries m (dict_set kw k v) fs.
Proof.
  intros Hk H f Hf Hn; rewrite dict_lookup_set.
  destruct (String.eqb_spec f k) as [->|_]; [contradiction | now apply H].
Qed.

Lemma carries_name m kw fs :
  truthy (param m "name") = true -> In "name" fs -> carries m kw fs ->
  dict_lookup "name" kw = Some (param m "name").
Proof. intros Tn Hin H; apply H; [exact Hin | now apply truthy_not_none]. Qed.

Definition pp_create_kwargs (m : module) : pydict :=
  dict_set (dict_set (PortPair._compose_port_pair_args m) "ingress" (param m "ingress"))
           "egress" (param m "egress").

Lemma pp_create_kwargs_carries m :
  carries m (pp_create_kwargs m) ["name"; "service_function_parameters"].
Proof.
  apply carries_set; [cbn; intuition discriminate|].
  apply carries_set; [cbn; intuition discriminate|].
  apply carries_collect; cbn; intuition.
Qed.

Section PortPairTwice.
Variables (m : module) (cl : cloud).
Hypotheses (Hcm : check_mode m = false) (Hst : state m = Present)
           (Tn : truthy (param m "name") = true)
           (Ti : truthy (param m "ingress") = true) (Te : truthy (param m "egress") = true)
           (Gi : getitem (find_obj (c_ports cl) (param m "ingress")) "id" = inl (param m "ingress"))
           (Ge : getitem (find_obj (c_ports cl) (param m "egress")) "id" = inl (param m "egress")).

Lemma pp_first_run :
  find_obj (c_port_pairs cl) (param m "name") = PNone ->
  PortPair.main m cl
  = ([Get KPortPair (param m "name"); Get KPort (param m "ingress"); Get KPort (param m "egress");
      Create KPortPair (pp_create_kwargs m)],
     inr (Exit true [("id", PStr (c_next_id cl));
                     ("port_pair", created_obj cl KPortPair (pp_create_kwargs m))])).
Proof.
  intros Hf; unfold PortPair.main; cbv zeta; rewrite Tn.
  cbv beta iota delta [cloud_get objects bind]; rewrite Hf, Hcm, Hst.
  rewrite (pp_get_ids_ok m cl Ti Te Gi Ge); reflexivity.
Qed.

Lemma pp_needs_update_created kw :
  carries m kw ["service_function_parameters"] ->
  PortPair._needs_update m (created_obj cl KPortPair kw)
    (PDict [("ingress", param m "ingress"); ("egress", param m "egress")]) = ([], inl false).
Proof.
  intros Hkw; unfold PortPair._needs_update; cbn -[py_ne].
  rewrite !py_ne_refl, !andb_false_r; cbn -[py_ne].
  destruct (is_not_none (param m "service_function_parameters")) eqn:E; [|reflexivity].
  rewrite (Hkw _ (or_introl eq_refl) E); cbn -[py_ne]; now rewrite py_ne_refl.
Qed.

Lemma pp_second_run kw cl' l :
  carries m kw ["name"; "service_function_parameters"] ->
  c_ports cl' = c_ports cl -> c_port_pairs cl' = created_obj cl KPortPair kw :: l ->
  PortPair.main m cl'
  = ([Get KPortPair (param m "name"); Get KPort (param m "ingress"); Get KPort (param m "egress")],
     inr (Exit false [("id", PStr (c_next_id cl)); ("port_pair", created_obj cl KPortPair kw)])).
Proof.
  intros Hkw Hports Hpairs; unfold PortPair.main; cbv zeta; rewrite Tn.
  cbv beta iota delta [cloud_get objects bind]; rewrite Hpairs.
  rewrite (find_created cl KPortPair kw _ _
             (carries_name m kw ["name"; "service_function_parameters"] Tn (or_introl eq_refl) Hkw)).
  rewrite Hcm, Hst, (pp_get_ids_ok m cl' Ti Te); [| rewrite Hports; exact Gi | rewrite Hports; exact Ge].
  rewrite pp_needs_update_created; [reflexivity|].
  intros f Hf; apply Hkw; now right.
Qed.

End PortPairTwice.

(** A computation that never stops with [exit_json]. *)
Definition not_exit (s : stop) : bool := match s with Exit _ _ => false | _ => true end.

Definition NoExit {A} (c : M A) : Prop := forall s, outcome c = inr s -> not_exit s = true.

Lemma noexit_bind {A B} (c : M A) (k : A -> M B) :
  NoExit c -> (forall a, outcome c = inl a -> NoExit (k a)) -> NoExit (bind c k).
Proof.
  intros Hc Hk s; rewrite outcome_bind; destruct (outcome c) as [a|s'] eqn:E.
  - exact (Hk a eq_refl s).
  - intros [= <-]; exact (Hc s' E).
Qed.

Lemma noexit_ret {A} (a : A) : NoExit (ret a).
Proof. intros s H; discriminate H. Qed.
Lemma noexit_lift {A} (r : R A) : NoExit (lift r).
Proof. intros s; destruct r; cbn; [discriminate | intros [= <-]; reflexivity]. Qed.
Lemma noexit_raise {A} e : NoExit (A := A) (raise e).
Proof. intros s [= <-]; reflexivity. Qed.
Lemma noexit_fail {A} msg : NoExit (A := A) (fail_json msg).
Proof. intros s [= <-]; reflexivity. Qed.
Lemma noexit_get cl k key : NoExit (cloud_get cl k key).
Proof. intros s H; discriminate H. Qed.

Create HintDb noexit.
#[export] Hint Resolve noexit_ret noexit_lift noexit_raise noexit_fail noexit_get : noexit.

Ltac noexit_tac :=
  repeat (intros; cbv beta iota zeta;
          match goal with
          | |- NoExit (bind _ _) => apply noexit_bind
          | |- NoExit (match ?x with _ => _ end) => destruct x
          | |- NoExit _ => solve [eauto with noexit]
          end).

Lemma noexit_resolve_port_pairs cl f names acc :
  NoExit (PortPairGroup.resolve_port_pairs cl f names acc).
Proof.
  revert acc; induction names as [|n ns IH]; intros acc; cbn [PortPairGroup.resolve_port_pairs];
    noexit_tac.
Qed.
#[export] Hint Resolve noexit_resolve_port_pairs : noexit.

Lemma noexit_ppg_get_ids m cl f : NoExit (PortPairGroup._port_pairs_get_ids m cl f).
Proof. unfold PortPairGroup._port_pairs_get_ids; noexit_tac. Qed.

Lemma find_obj_in l key : find_obj l key = PNone \/ In (find_obj l key) l.
Proof.
  unfold find_obj; destruct (find (matches key) l) eqn:E; [right | now left].
  now apply find_some in E.
Qed.

(** The ids of the port pairs in the store are hashable (strings, in
    Neutron). *)
Definition port_pair_ids_hashable (cl : cloud) : Prop :=
  forall o i, In o (c_port_pairs cl) -> getitem o "id" = inl i -> hashable i = true.

Lemma resolve_port_pairs_hashable cl names acc ids :
  port_pair_ids_hashable cl -> forallb hashable acc = true ->
  outcome (PortPairGroup.resolve_port_pairs cl true names acc) = inl ids ->
  forallb hashable ids = true.
Proof.
  intros Hcl; revert acc; induction names as [|n ns IH]; intros acc Hacc H;
    cbn [PortPairGroup.resolve_port_pairs] in H.
  - cbn in H; congruence.
  - rewrite outcome_bind in H; cbn [cloud_get outcome snd objects] in H.
    rewrite outcome_bind in H.
    destruct (is_none (find_obj (c_port_pairs cl) n) && true); cbn in H; [discriminate H|].
    rewrite outcome_bind in H.
    destruct (getitem (find_obj (c_port_pairs cl) n) "id") as [i|e] eqn:G; cbn in H;
      [|discriminate H].
    refine (IH _ _ H); rewrite forallb_app, Hacc; cbn.
    destruct (find_obj_in (c_port_pairs cl) n) as [E|E].
    + rewrite E in G; discriminate G.
    + now rewrite (Hcl _ _ E G).
Qed.

Lemma ppg_get_ids_ok m cl t v :
  port_pair_ids_hashable cl ->
  PortPairGroup._port_pairs_get_ids m cl true = (t, inl v) ->
  exists ids, v = PList ids /\ forallb hashable ids = true /\ mutations t = [].
Proof.
  intros Hcl E.
  pose proof (mutations_of_avoid _ _ _ (calls_ppg_get_ids _ gets_ok_mutating m cl true) E) as Hm.
  unfold PortPairGroup._port_pairs_get_ids in E; cbv zeta in E.
  destruct (truthy (param m "port_pairs")); cbn [negb] in E; [|discriminate E].
  destruct (py_iter (param m "port_pairs")) as [ns|e]; cbn [lift bind] in E; [|discriminate E].
  destruct (PortPairGroup.resolve_port_pairs cl true ns []) as [t' [ids|s]] eqn:R;
    cbn [bind ret] in E; [|discriminate E].
  injection E as _ <-; exists ids; split; [reflexivity | split; [|exact Hm]].
  apply (resolve_port_pairs_hashable cl ns [] ids Hcl eq_refl).
  rewrite R; reflexivity.
Qed.

Lemma bind_ext {A B} (c : M A) (k1 k2 : A -> M B) :
  (forall a, k1 a = k2 a) -> bind c k1 = bind c k2.
Proof. intros H; destruct c as [t [a|s]]; cbn; [rewrite H|]; reflexivity. Qed.

Lemma resolve_port_pairs_ext cl cl' f names acc :
  c_port_pairs cl' = c_port_pairs cl ->
  PortPairGroup.resolve_port_pairs cl' f names acc = PortPairGroup.resolve_port_pairs cl f names acc.
Proof.
  intros H; revert acc; induction names as [|n ns IH]; intros acc; [reflexivity|].
  cbn [PortPairGroup.resolve_port_pairs]; unfold cloud_get; cbn [objects]; rewrite H.
  apply bind_ext; intros pp; apply bind_ext; intros u; apply bind_ext; intros i; apply IH.
Qed.

Lemma ppg_get_ids_ext m cl cl' f :
  c_port_pairs cl' = c_port_pairs cl ->
  PortPairGroup._port_pairs_get_ids m cl' f = PortPairGroup._port_pairs_get_ids m cl f.
Proof.
  intros H; unfold PortPairGroup._port_pairs_get_ids.
  destruct (truthy (param m "port_pairs")); [|reflexivity]; cbn [negb].
  apply bind_ext; intros ns; now rewrite (resolve_port_pairs_ext cl cl').
Qed.

Definition ppg_create_kwargs (m : module) (ids : list pyval) : pydict :=
  PortPairGroup._compose_port_pair_group_args m (PList ids).

Lemma ppg_create_kwargs_carries m ids :
  carries m (ppg_create_kwargs m ids) ["name"; "port_pair_group_parameters"].
Proof.
  apply carries_set; [cbn; intuition discriminate|].
  apply carries_collect; cbn; intuition.
Qed.

Lemma ppg_create_kwargs_port_pairs m ids :
  dict_lookup "port_pairs" (ppg_create_kwargs m ids) = Some (PList ids).
Proof.
  unfold ppg_create_kwargs, PortPairGroup._compose_port_pair_group_args.
  rewrite dict_lookup_set; reflexivity.
Qed.

Section PortPairGroupTwice.
Variables (m : module) (cl : cloud).
Hypotheses (Hcm : check_mode m = false) (Hst : state m = Present)
           (Tn : truthy (param m "name") = true).

Lemma ppg_first_run t ids :
  find_obj (c_port_pair_groups cl) (param m "name") = PNone ->
  PortPairGroup._port_pairs_get_ids m cl true = (t, inl (PList ids)) ->
  PortPairGroup.main m cl
  = ((Get KPortPairGroup (param m "name") :: t ++ [Create KPortPairGroup (ppg_create_kwargs m ids)])%list,
     inr (Exit true [("id", PStr (c_next_id cl));
                     ("port_pair_group", created_obj cl KPortPairGroup (ppg_create_kwargs m ids))])).
Proof.
  intros Hf E; unfold PortPairGroup.main, PortPairGroup.main_in; cbv zeta; rewrite Tn.
  cbv beta iota delta [cloud_get objects bind]; rewrite Hf, Hcm, Hst, E; reflexivity.
Qed.

Lemma ppg_needs_update_created ids kw :
  forallb hashable ids = true ->
  dict_lookup "port_pairs" kw = Some (PList ids) ->
  carries m kw ["port_pair_group_parameters"] ->
  PortPairGroup._needs_update m (created_obj cl KPortPairGroup kw) (PList ids) = ([], inl false).
Proof.
  intros Hh Hpp Hkw; unfold PortPairGroup._needs_update; cbn -[py_ne set_eqb].
  rewrite Hh, Hpp; cbn -[py_ne set_eqb]; rewrite Hh; cbn -[py_ne set_eqb].
  rewrite set_eqb_refl; cbn -[py_ne].
  destruct (is_not_none (param m "port_pair_group_parameters")) eqn:E; [|reflexivity].
  rewrite (Hkw _ (or_introl eq_refl) E); cbn -[py_ne]; now rewrite py_ne_refl.
Qed.

Lemma ppg_second_run t ids kw cl' l :
  forallb hashable ids = true ->
  PortPairGroup._port_pairs_get_ids m cl true = (t, inl (PList ids)) ->
  dict_lookup "port_pairs" kw = Some (PList ids) ->
  carries m kw ["name"; "port_pair_group_parameters"] ->
  c_port_pairs cl' = c_port_pairs cl ->
  c_port_pair_groups cl' = created_obj cl KPortPairGroup kw :: l ->
  PortPairGroup.main m cl'
  = ((Get KPortPairGroup (param m "name") :: t)%list,
     inr (Exit false [("id", PStr (c_next_id cl));
                      ("port_pair_group", created_obj cl KPortPairGroup kw)])).
Proof.
  intros Hh E Hpp Hkw Hpairs Hgroups; unfold PortPairGroup.main, PortPairGroup.main_in.
  cbv zeta; rewrite Tn; cbv beta iota delta [cloud_get objects bind]; rewrite Hgroups.
  rewrite (find_created cl KPortPairGroup kw _ _
             (carries_name m kw ["name"; "port_pair_group_parameters"] Tn (or_introl eq_refl) Hkw)).
  rewrite Hcm, Hst, (ppg_get_ids_ext m cl cl' true Hpairs), E.
  rewrite ppg_needs_update_created; [cbn; now rewrite app_nil_r | exact Hh | exact Hpp |].
  intros f Hf; apply Hkw; now right.
Qed.

End PortPairGroupTwice.

Lemma getitem_created cl k kw f :
  In f (schema k) ->
  getitem (created_obj cl k kw) f = inl (match dict_lookup f kw with Some v => v | None => PNone end).
Proof.
  intros H; destruct k; cbn [schema] in H;
    repeat (destruct H as [<-|H]; [reflexivity|]); destruct H.
Qed.

Lemma for_any_false l body :
  (forall k, In k l -> body k = ([], inl false)) -> for_any l body = ([], inl false).
Proof.
  induction l as [|k ks IH]; intros H; [reflexivity|].
  cbn [for_any]; rewrite (H k (or_introl eq_refl)); cbn [bind app].
  rewrite IH; [reflexivity|]; intros k' Hk'; apply H; now right.
Qed.

(** Every supplied logical port is given by the id of a port of the store. *)
Definition refs_by_id (cl : cloud) (m : module) (ks : list string) : Prop :=
  forall key, In key ks -> is_not_none (param m key) = true ->
    getitem (find_obj (c_ports cl) (param m key)) "id" = inl (param m key).

Definition fc_port_dict (m : module) : pydict :=
  let d := if is_not_none (param m "logical_source_port")
           then dict_set [] "logical_source_port" (param m "logical_source_port") else [] in
  if is_not_none (param m "logical_destination_port")
  then dict_set d "logical_destination_port" (param m "logical_destination_port") else d.

Definition fc_port_trace (m : module) : list call :=
  ((if is_not_none (param m "logical_source_port")
    then [Get KPort (param m "logical_source_port")] else [])
   ++ (if is_not_none (param m "logical_destination_port")
       then [Get KPort (param m "logical_destination_port")] else []))%list.

Definition fc_create_kwargs (m : module) : pydict :=
  let kw := collect_params m ["name"; "ethertype"; "protocol"; "source_port_range_min";
                              "source_port_range_max"; "destination_port_range_min";
                              "destination_port_range_max"; "source_ip_prefix";
                              "destination_ip_prefix"; "l7_parameters"] in
  let kw := if is_not_none (param m "logical_source_port")
            then dict_set kw "logical_source_port" (param m "logical_source_port") else kw in
  if is_not_none (param m "logical_destination_port")
  then dict_set kw "logical_destination_port" (param m "logical_destination_port") else kw.

Definition fc_ports : list string := ["logical_source_port"; "logical_destination_port"].

Lemma fc_get_ids_ok m cl f :
  refs_by_id cl m fc_ports ->
  FlowClassifier._ports_get_ids m cl f = (fc_port_trace m, inl (PDict (fc_port_dict m))).
Proof.
  intros Hr; unfold FlowClassifier._ports_get_ids, FlowClassifier.resolve_port,
    fc_port_trace, fc_port_dict; cbv zeta.
  pose proof (Hr "logical_source_port" (or_introl eq_refl)) as Gs.
  pose proof (Hr "logical_destination_port" (or_intror (or_introl eq_refl))) as Gd.
  destruct (is_not_none (param m "logical_source_port")) eqn:Es;
    destruct (is_not_none (param m "logical_destination_port")) eqn:Ed;
    cbv beta iota delta [bind cloud_get objects];
    rewrite ?(getitem_found _ _ _ (Gs eq_refl)), ?(getitem_found _ _ _ (Gd eq_refl)),
      ?(Gs eq_refl), ?(Gd eq_refl); reflexivity.
Qed.

Lemma fc_port_dict_param m key v :
  dict_lookup key (fc_port_dict m) = Some v -> v = param m key.
Proof.
  unfold fc_port_dict; cbv zeta.
  destruct (is_not_none (param m "logical_source_port"));
    destruct (is_not_none (param m "logical_destination_port"));
    rewrite ?dict_lookup_set; cbn [dict_lookup];
    repeat match goal with
           | |- context [String.eqb ?a ?b] =>
               destruct (String.eqb_spec a b); [subst|]
           end; congruence.
Qed.

Lemma fc_compose_ok m :
  FlowClassifier._compose_flow_classifier_args m (PDict (fc_port_dict m))
  = ([], inl (fc_create_kwargs m)).
Proof.
  unfold FlowClassifier._compose_flow_classifier_args, fc_port_dict, fc_create_kwargs; cbv zeta.
  destruct (is_not_none (param m "logical_source_port"));
    destruct (is_not_none (param m "logical_destination_port")); reflexivity.
Qed.

Definition fc_fields : list string :=
  ["name"; "l7_parameters"] ++ FlowClassifier.compare_simple.

Lemma fc_create_kwargs_carries m : carries m (fc_create_kwargs m) fc_fields.
Proof.
  intros f Hf Hn; unfold fc_create_kwargs; cbv zeta.
  destruct (String.eqb_spec f "logical_destination_port") as [->|Hd].
  - rewrite Hn, dict_lookup_set; reflexivity.
  - destruct (is_not_none (param m "logical_destination_port"));
      rewrite ?dict_lookup_set, ?(proj2 (String.eqb_neq _ _) Hd).
    + destruct (String.eqb_spec f "logical_source_port") as [->|Hs].
      * rewrite Hn, dict_lookup_set; reflexivity.
      * destruct (is_not_none (param m "logical_source_port"));
          rewrite ?dict_lookup_set, ?(proj2 (String.eqb_neq _ _) Hs);
          (apply collect_params_lookup; [exact Hn|]);
          cbn in Hf |- *; intuition congruence.
    + destruct (String.eqb_spec f "logical_source_port") as [->|Hs].
      * rewrite Hn, dict_lookup_set; reflexivity.
      * destruct (is_not_none (param m "logical_source_port"));
          rewrite ?dict_lookup_set, ?(proj2 (String.eqb_neq _ _) Hs);
          (apply collect_params_lookup; [exact Hn|]);
          cbn in Hf |- *; intuition congruence.
Qed.

Lemma fc_needs_update_created m cl kw pd :
  carries m kw fc_fields ->
  (forall key v, dict_lookup key pd = Some v -> v = param m key) ->
  FlowClassifier._needs_update m (created_obj cl KFlowClassifier kw) (PDict pd) = ([], inl false).
Proof.
  intros Hkw Hpd; unfold FlowClassifier._needs_update; cbv zeta.
  rewrite for_any_false.
  - cbn [bind app for_any]; rewrite getitem_created by (cbn; tauto); cbn [lift bind app ret].
    destruct (is_not_none (param m "l7_parameters")) eqn:En; [|reflexivity].
    rewrite (Hkw "l7_parameters" ltac:(cbn; tauto) En); cbn [lift bind app ret].
    now rewrite py_ne_refl.
  - intros k Hk; cbn [get_attr lift bind app].
    rewrite getitem_created by (cbn in Hk |- *; tauto); cbn [lift bind app dict_get ret].
    destruct (dict_lookup k pd) as [v|] eqn:Ep; cbn [lift bind app ret].
    + rewrite (Hpd _ _ Ep), py_ne_refl, andb_false_r; reflexivity.
    + destruct (is_not_none (param m k)) eqn:En; [|reflexivity].
      rewrite (Hkw k ltac:(cbn in Hk |- *; tauto) En), py_ne_refl; reflexivity.
Qed.

Section FlowClassifierTwice.
Variables (m : module) (cl : cloud).
Hypotheses (Hcm : check_mode m = false) (Hst : state m = Present)
           (Tn : truthy (param m "name") = true) (Hr : refs_by_id cl m fc_ports).

Lemma fc_first_run :
  find_obj (c_flow_classifiers cl) (param m "name") = PNone ->
  FlowClassifier.main m cl
  = ((Get KFlowClassifier (param m "name") :: fc_port_trace m
        ++ [Create KFlowClassifier (fc_create_kwargs m)])%list,
     inr (Exit true [("id", PStr (c_next_id cl));
                     ("flow_classifier", created_obj cl KFlowClassifier (fc_create_kwargs m))])).
Proof.
  intros Hf; unfold FlowClassifier.main; cbv zeta; rewrite Tn.
  cbv beta iota delta [cloud_get objects bind]; rewrite Hf, Hcm, Hst, (fc_get_ids_ok m cl false Hr).
  rewrite fc_compose_ok; reflexivity.
Qed.

Lemma fc_second_run kw cl' l :
  carries m kw fc_fields ->
  c_ports cl' = c_ports cl ->
  c_flow_classifiers cl' = created_obj cl KFlowClassifier kw :: l ->
  FlowClassifier.main m cl'
  = ((Get KFlowClassifier (param m "name") :: fc_port_trace m)%list,
     inr (Exit false [("id", PStr (c_next_id cl));
                      ("flow_classifier", created_obj cl KFlowClassifier kw)])).
Proof.
  intros Hkw Hports Hfcs; unfold FlowClassifier.main; cbv zeta; rewrite Tn.
  cbv beta iota delta [cloud_get objects bind]; rewrite Hfcs.
  rewrite (find_created cl KFlowClassifier kw _ _
             (carries_name m kw fc_fields Tn (or_introl eq_refl) Hkw)).
  rewrite Hcm, Hst, (fc_get_ids_ok m cl' false).
  - rewrite (fc_needs_update_created m cl kw _ Hkw (fc_port_dict_param m)).
    cbn; now rewrite app_nil_r.
  - intros key Hk Hn; rewrite Hports; now apply Hr.
Qed.

End FlowClassifierTwice.

Lemma pp_main_stops m cl s :
  check_mode m = false -> state m = Present ->
  outcome (PortPair._ports_get_ids m cl true) = inr s ->
  outcome (PortPair.main m cl) = inr s /\ mutations (trace (PortPair.main m cl)) = [].
Proof.
  intros Hcm Hst Hs; unfold PortPair.main; apply lookup_then; intros o.
  rewrite Hcm, Hst; apply stop_then; [exact Hs | apply calls_pp_get_ids, gets_ok_mutating].
Qed.

Lemma fc_port_trace_reads m : mutations (fc_port_trace m) = [].
Proof.
  unfold fc_port_trace; destruct (is_not_none (param m "logical_source_port"));
    destruct (is_not_none (param m "logical_destination_port")); reflexivity.
Qed.

Lemma commit_all_create cl k name t kw :
  mutations t = [] ->
  commit_all cl (Get k name :: t ++ [Create k kw])%list
  = with_objects cl k (created_obj cl k kw :: objects cl k).
Proof.
  intros Ht; change (commit_all cl (Get k name :: t ++ [Create k kw])%list)
    with (commit_all cl (t ++ [Create k kw])%list).
  rewrite commit_all_app, (commit_all_reads cl t Ht); reflexivity.
Qed.

Definition resource_kind (r : resource) : kind :=
  match r with
  | RPortPair => KPortPair
  | RPortPairGroup => KPortPairGroup
  | RFlowClassifier => KFlowClassifier
  | RPortChain => KPortChain
  end.

(** The options a resource resolves to ports. *)
Definition port_refs (r : resource) : list string :=
  match r with
  | RPortPair => ["ingress"; "egress"]
  | RFlowClassifier => fc_ports
  | _ => []
  end.

(** ** Targets of the mutating calls *)

(** The object [main] looks up: by the supplied name, [None] without one. *)
Definition found (r : resource) (m : module) (cl : cloud) : pyval :=
  if truthy (param m "name")
  then find_obj (objects cl (resource_kind r)) (param m "name") else PNone.

Lemma lookup_found m cl k pp :
  outcome (if truthy (param m "name") then cloud_get cl k (param m "name") else ret PNone)
  = inl pp ->
  pp = (if truthy (param m "name") then find_obj (objects cl k) (param m "name") else PNone).
Proof. destruct (truthy (param m "name")); cbn; congruence. Qed.

Lemma lift_inl {A} (r : R A) a : outcome (lift r) = inl a -> r = inl a.
Proof. destruct r; cbn; congruence. Qed.

(** A create is of the resource's own kind and happens when the lookup
    found nothing; an update or a delete is of the resource's own kind and
    targets the id of the object the lookup found. *)
Definition targets (r : resource) (m : module) (cl : cloud) (x : call) : Prop :=
  match x with
  | Get _ _ => True
  | Create k _ => k = resource_kind r /\ truthy (found r m cl) = false
  | Update k id _ | Delete k id =>
      k = resource_kind r /\ truthy (found r m cl) = true
      /\ getitem (found r m cl) "id" = inl id
  end.

Lemma gets_ok_targets r m cl : GetsOk (targets r m cl).
Proof. intros k key; exact I. Qed.
#[export] Hint Resolve gets_ok_targets : calls.

(** Close a create, update or delete leaf of [main] against [targets]. *)
Ltac target_leaf :=
  first [apply calls_create | apply calls_update | apply calls_delete];
  cbv beta iota delta [targets found resource_kind];
  match goal with
  | H : outcome (if truthy (param _ "name") then _ else _) = inl ?pp |- _ =>
      rewrite <- (lookup_found _ _ _ _ H)
  end;
  repeat split;
  first [ reflexivity | apply negb_true_iff; assumption | apply negb_false_iff; assumption
        | assumption | apply lift_inl; assumption ].

(** ** Deleting *)

(** Outside check mode, with state absent, every module runs the same
    lookup-then-delete code. *)
Definition absent_body (r : resource) (m : module) (cl : cloud) : M unit :=
  let k := resource_kind r in
  let name := param m "name" in
  o <- (if truthy name then cloud_get cl k name else ret PNone) ;;
  if truthy o then
    id <- lift (getitem o "id") ;;
    u <- cloud_delete cl k id ;;
    exit_json true []
  else exit_json false [].

Lemma absent_run r m cl :
  check_mode m = false -> state m = Absent -> run r m cl = absent_body r m cl.
Proof.
  intros Hc Hs; destruct r;
    unfold run, PortPair.main, PortPairGroup.main, PortPairGroup.main_in,
      FlowClassifier.main, PortChain.main; rewrite Hc, Hs; reflexivity.
Qed.

Lemma objects_with_objects cl k l : objects (with_objects cl k l) k = l.
Proof. destruct k; reflexivity. Qed.

Lemma field_id o i : getitem o "id" = inl i -> field_or_none o "id" = i.
Proof.
  destruct o as [| | | | |d]; cbn; try discriminate.
  destruct (dict_lookup "id" d); congruence.
Qed.

Lemma matches_own_id o i : getitem o "id" = inl i -> matches i o = true.
Proof. intros H; unfold matches; rewrite (field_id o i H), py_eqb_refl, orb_true_r; reflexivity. Qed.

(** After removing every object that matches [i], nothing matches a key
    whose every match also matches [i]. *)
Lemma find_obj_filter l key i :
  (forall o, In o l -> matches key o = true -> matches i o = true) ->
  find_obj (filter (fun o => negb (matches i o)) l) key = PNone.
Proof.
  intros H; unfold find_obj.
  destruct (find (matches key) (filter (fun o => negb (matches i o)) l)) as [o|] eqn:E;
    [|reflexivity].
  apply find_some in E as [Hin Hk]; apply filter_In in Hin as [Hin Hn].
  rewrite (H o Hin Hk) in Hn; discriminate Hn.
Qed.

(** ** Check mode and the real run *)

(** The same invocation with check mode set to [c]. *)
Definition with_check (m : module) (c : bool) : module :=
  {| params := params m; state := state m; check_mode := c |}.

Lemma noexit_create cl k kw : NoExit (cloud_create cl k kw).
Proof. intros s H; discriminate H. Qed.
Lemma noexit_update cl k id kw : NoExit (cloud_update cl k id kw).
Proof. intros s H; discriminate H. Qed.
Lemma noexit_delete cl k id : NoExit (cloud_delete cl k id).
Proof. intros s H; discriminate H. Qed.
#[export] Hint Resolve noexit_create noexit_update noexit_delete : noexit.

Lemma noexit_for_any l body : (forall k, NoExit (body k)) -> NoExit (for_any l body).
Proof.
  intros H; induction l as [|k ks IH]; cbn [for_any]; [apply noexit_ret|].
  apply noexit_bind; [apply H|]; intros [] _; [apply noexit_ret | exact IH].
Qed.

Ltac noexit_all :=
  repeat (intros; cbv beta iota zeta;
          match goal with
          | |- NoExit (bind _ _) => apply noexit_bind
          | |- NoExit (for_any _ _) => apply noexit_for_any
          | |- NoExit (match ?x with _ => _ end) => destruct x
          | |- NoExit _ => solve [eauto with noexit]
          end).

Lemma noexit_pp_get_ids m cl f : NoExit (PortPair._ports_get_ids m cl f).
Proof. unfold PortPair._ports_get_ids; noexit_all. Qed.
Lemma noexit_pp_needs_update m pp ports : NoExit (PortPair._needs_update m pp ports).
Proof. unfold PortPair._needs_update; noexit_all. Qed.
#[export] Hint Resolve noexit_pp_get_ids noexit_pp_needs_update : noexit.
Lemma noexit_pp_state_change m pp ports : NoExit (PortPair._system_state_change m pp ports).
Proof. unfold PortPair._system_state_change; noexit_all. Qed.

Lemma noexit_ppg_needs_update m ppg ids : NoExit (PortPairGroup._needs_update m ppg ids).
Proof. unfold PortPairGroup._needs_update; noexit_all. Qed.
#[export] Hint Resolve noexit_ppg_get_ids noexit_ppg_needs_update : noexit.
Lemma noexit_ppg_state_change m ppg ids : NoExit (PortPairGroup._system_state_change m ppg ids).
Proof. unfold PortPairGroup._system_state_change; noexit_all. Qed.
Lemma noexit_call_global ns name m cl ids : NoExit (PortPairGroup.call_global ns name m cl ids).
Proof. unfold PortPairGroup.call_global; noexit_all. Qed.

Lemma noexit_fc_get_ids m cl f : NoExit (FlowClassifier._ports_get_ids m cl f).
Proof. unfold FlowClassifier._ports_get_ids, FlowClassifier.resolve_port; noexit_all. Qed.
Lemma noexit_fc_needs_update m fc ports : NoExit (FlowClassifier._needs_update m fc ports).
Proof. unfold FlowClassifier._needs_update; noexit_all. Qed.
#[export] Hint Resolve noexit_fc_get_ids noexit_fc_needs_update : noexit.
Lemma noexit_fc_state_change m fc ports : NoExit (FlowClassifier._system_state_change m fc ports).
Proof. unfold FlowClassifier._system_state_change; noexit_all. Qed.
Lemma noexit_fc_compose m ports : NoExit (FlowClassifier._compose_flow_classifier_args m ports).
Proof. unfold FlowClassifier._compose_flow_classifier_args; noexit_all. Qed.

Lemma noexit_pc_resolve_refs cl f k names ids : NoExit (PortChain.resolve_refs cl f k names ids).
Proof.
  revert ids; induction names as [|n ns IH]; intros ids; cbn [PortChain.resolve_refs];
    noexit_all.
Qed.
Lemma noexit_pc_compare_list_loop m pc ids ks v :
  NoExit (PortChain.compare_list_loop m pc ids ks v).
Proof.
  revert v; induction ks as [|k ks IH]; intros v; cbn [PortChain.compare_list_loop];
    noexit_all.
Qed.
Lemma noexit_pc_compose_loop m ids ps kw : NoExit (PortChain.compose_loop m ids ps kw).
Proof.
  revert kw; induction ps as [|p ps IH]; intros kw; cbn [PortChain.compose_loop];
    noexit_all.
Qed.
#[export] Hint Resolve noexit_pc_resolve_refs noexit_pc_compare_list_loop
  noexit_pc_compose_loop : noexit.
Lemma noexit_pc_get_ids m cl f : NoExit (PortChain._port_chains_get_ids m cl f).
Proof. unfold PortChain._port_chains_get_ids; noexit_all. Qed.
Lemma noexit_pc_needs_update m pc ids : NoExit (PortChain._needs_update m pc ids).
Proof. unfold PortChain._needs_update; noexit_all. Qed.
#[export] Hint Resolve noexit_pc_get_ids noexit_pc_needs_update : noexit.
Lemma noexit_pc_state_change m pc ids : NoExit (PortChain._system_state_change m pc ids).
Proof. unfold PortChain._system_state_change; noexit_all. Qed.
Lemma noexit_pc_compose m ids : NoExit (PortChain._compose_port_chain_args m ids).
Proof. unfold PortChain._compose_port_chain_args; noexit_all. Qed.
#[export] Hint Resolve noexit_pp_state_change noexit_ppg_state_change noexit_call_global
  noexit_fc_state_change noexit_fc_compose noexit_pc_state_change noexit_pc_compose : noexit.

Lemma exit_bind {A B} (c : M A) (k : A -> M B) b x :
  NoExit c -> outcome (bind c k) = inr (Exit b x) ->
  exists a, outcome c = inl a /\ outcome (k a) = inr (Exit b x).
Proof.
  intros Hc H; rewrite outcome_bind in H; destruct (outcome c) as [a|s] eqn:E; [eauto|].
  injection H as ->; specialize (Hc _ E); discriminate Hc.
Qed.

(** Follow a run that exits through its binds and branches. *)
Ltac exit_tac H :=
  repeat (cbv beta iota zeta in H;
          match type of H with
          | outcome (bind ?c ?k) = inr (Exit _ _) =>
              let a := fresh "a" in let Ha := fresh "Ha" in let H' := fresh "H" in
              destruct (exit_bind c k _ _ ltac:(noexit_all) H) as (a & Ha & H');
              clear H; rename H' into H
          | outcome (match ?x with _ => _ end) = inr (Exit _ _) =>
              let E := fresh "E" in destruct x eqn:E
          end).

(** [fail_on_error] only turns a missing or unresolved reference into a
    failure: when the strict resolution succeeds, the lenient one returns
    the same value. *)
Lemma pp_get_ids_lenient m cl v :
  outcome (PortPair._ports_get_ids m cl true) = inl v ->
  outcome (PortPair._ports_get_ids m cl false) = inl v.
Proof.
  unfold PortPair._ports_get_ids; cbv zeta.
  destruct (truthy (param m "ingress")); cbn [negb]; [|discriminate].
  destruct (truthy (param m "egress")); cbn [negb]; [|discriminate].
  rewrite !outcome_bind; cbn [cloud_get outcome snd].
  destruct (is_none (find_obj (objects cl KPort) (param m "ingress"))); [discriminate|].
  rewrite !outcome_bind.
  destruct (outcome (lift (getitem (find_obj (objects cl KPort) (param m "ingress")) "id")));
    [|auto]; cbn [ret outcome snd]; rewrite !outcome_bind; cbn [cloud_get outcome snd].
  destruct (is_none (find_obj (objects cl KPort) (param m "egress"))); [discriminate|auto].
Qed.

Lemma ppg_resolve_lenient cl names acc v :
  outcome (PortPairGroup.resolve_port_pairs cl true names acc) = inl v ->
  outcome (PortPairGroup.resolve_port_pairs cl false names acc) = inl v.
Proof.
  revert acc; induction names as [|n ns IH]; intros acc; cbn [PortPairGroup.resolve_port_pairs];
    [auto|].
  rewrite !outcome_bind; cbn [cloud_get outcome snd].
  destruct (is_none (find_obj (objects cl KPortPair) n)); cbn [andb]; [discriminate|].
  cbn [ret outcome snd]; rewrite !outcome_bind.
  destruct (outcome (lift (getitem (find_obj (objects cl KPortPair) n) "id"))); [apply IH|auto].
Qed.

Lemma ppg_get_ids_lenient m cl v :
  outcome (PortPairGroup._port_pairs_get_ids m cl true) = inl v ->
  outcome (PortPairGroup._port_pairs_get_ids m cl false) = inl v.
Proof.
  unfold PortPairGroup._port_pairs_get_ids; cbv zeta.
  destruct (truthy (param m "port_pairs")); cbn [negb]; [|discriminate].
  rewrite !outcome_bind; destruct (outcome (lift (py_iter (param m "port_pairs")))); [|auto].
  rewrite !outcome_bind.
  destruct (outcome (PortPairGroup.resolve_port_pairs cl true l [])) eqn:E; [|discriminate].
  rewrite (ppg_resolve_lenient _ _ _ _ E); auto.
Qed.

Lemma pc_resolve_lenient cl k names acc v :
  outcome (PortChain.resolve_refs cl true k names acc) = inl v ->
  outcome (PortChain.resolve_refs cl false k names acc) = inl v.
Proof.
  revert acc; induction names as [|n ns IH]; intros acc; cbn [PortChain.resolve_refs]; [auto|].
  rewrite !outcome_bind; cbn [cloud_get outcome snd].
  destruct (is_none (find_obj (objects cl k) n)); [discriminate|].
  rewrite !outcome_bind.
  destruct (outcome (lift (getitem (find_obj (objects cl k) n) "id"))); [apply IH|auto].
Qed.

Lemma pc_get_ids_lenient m cl v :
  outcome (PortChain._port_chains_get_ids m cl true) = inl v ->
  outcome (PortChain._port_chains_get_ids m cl false) = inl v.
Proof.
  unfold PortChain._port_chains_get_ids; cbv zeta.
  destruct (truthy (param m "port_pair_groups")); cbn [negb]; [|discriminate].
  rewrite !outcome_bind; destruct (outcome (lift (py_iter (param m "port_pair_groups")))); [|auto].
  rewrite !outcome_bind.
  destruct (outcome (PortChain.resolve_refs cl true KPortPairGroup l [])) as [[ids|]|] eqn:E;
    [| | discriminate]; rewrite (pc_resolve_lenient _ _ _ _ _ E); [|auto].
  destruct (truthy (param m "flow_classifiers")); cbn [negb]; [|discriminate].
  rewrite !outcome_bind; destruct (outcome (lift (py_iter (param m "flow_classifiers")))); [|auto].
  rewrite !outcome_bind.
  destruct (outcome (PortChain.resolve_refs cl true KFlowClassifier l0 [])) as [[ids'|]|] eqn:E';
    [| | discriminate]; rewrite (pc_resolve_lenient _ _ _ _ _ E'); auto.
Qed.

(** In check mode every module runs lookup, lenient resolution, the
    state-change decision and [exit_json]. *)
Lemma pp_main_check m cl :
  PortPair.main (with_check m true) cl =
  (pp <- (if truthy (param m "name") then cloud_get cl KPortPair (param m "name") else ret PNone) ;;
   ports <- PortPair._ports_get_ids m cl false ;;
   c <- PortPair._system_state_change m pp ports ;;
   exit_json c []).
Proof. reflexivity. Qed.

Ltac predict_tac :=
  repeat match goal with
  | H : outcome (exit_json _ _) = inr (Exit _ _) |- _ =>
      cbn in H; injection H; clear H; intros; subst
  | H : outcome (PortPair._ports_get_ids _ _ true) = inl _ |- _ =>
      apply pp_get_ids_lenient in H
  | H : outcome (PortPairGroup._port_pairs_get_ids _ _ true) = inl _ |- _ =>
      apply ppg_get_ids_lenient in H
  | H : outcome (PortChain._port_chains_get_ids _ _ true) = inl _ |- _ =>
      apply pc_get_ids_lenient in H
  | Ha : outcome ?c = inl ?p, Hb : outcome ?c = inl ?q |- _ =>
      rewrite Ha in Hb; injection Hb; clear Hb; intros; subst
  end.

(** Close a case once both runs are followed to their exits: the
    check-mode decision against the branch the real run took. *)
Ltac ssc_finish :=
  match goal with
  | H : outcome (?f _ _ _) = inl _, Es : state _ = _ |- _ =>
      unfold PortPair._system_state_change, PortPairGroup._system_state_change,
        FlowClassifier._system_state_change, PortChain._system_state_change in H;
      rewrite Es in H;
      try match goal with E0 : negb (truthy _) = _ |- _ => rewrite E0 in H end;
      cbn [ret outcome snd] in H; congruence
  end.

Lemma pp_check_predicts m cl b1 x1 b2 x2 :
  check_mode m = false ->
  outcome (PortPair.main (with_check m true) cl) = inr (Exit b1 x1) ->
  outcome (PortPair.main m cl) = inr (Exit b2 x2) -> b1 = b2.
Proof.
  intros Hc H1 H2; rewrite pp_main_check in H1; unfold PortPair.main in H2; rewrite Hc in H2.
  exit_tac H1; exit_tac H2; predict_tac.
  all: ssc_finish.
Qed.

Lemma ppg_main_check m cl :
  PortPairGroup.main (with_check m true) cl =
  (ppg <- (if truthy (param m "name")
           then cloud_get cl KPortPairGroup (param m "name") else ret PNone) ;;
   ids <- PortPairGroup._port_pairs_get_ids m cl false ;;
   c <- PortPairGroup._system_state_change m ppg ids ;;
   exit_json c []).
Proof. reflexivity. Qed.

Lemma ppg_check_predicts m cl b1 x1 b2 x2 :
  check_mode m = false ->
  outcome (PortPairGroup.main (with_check m true) cl) = inr (Exit b1 x1) ->
  outcome (PortPairGroup.main m cl) = inr (Exit b2 x2) -> b1 = b2.
Proof.
  intros Hc H1 H2; rewrite ppg_main_check in H1;
    unfold PortPairGroup.main, PortPairGroup.main_in in H2; rewrite Hc in H2.
  exit_tac H1; exit_tac H2; predict_tac.
  all: ssc_finish.
Qed.

Lemma fc_main_check m cl :
  FlowClassifier.main (with_check m true) cl =
  (fc <- (if truthy (param m "name")
          then cloud_get cl KFlowClassifier (param m "name") else ret PNone) ;;
   ports <- FlowClassifier._ports_get_ids m cl false ;;
   c <- FlowClassifier._system_state_change m fc ports ;;
   exit_json c []).
Proof. reflexivity. Qed.

Lemma fc_check_predicts m cl b1 x1 b2 x2 :
  check_mode m = false ->
  outcome (FlowClassifier.main (with_check m true) cl) = inr (Exit b1 x1) ->
  outcome (FlowClassifier.main m cl) = inr (Exit b2 x2) -> b1 = b2.
Proof.
  intros Hc H1 H2; rewrite fc_main_check in H1; unfold FlowClassifier.main in H2; rewrite Hc in H2.
  exit_tac H1; exit_tac H2; predict_tac.
  all: ssc_finish.
Qed.

Lemma pc_main_check m cl :
  PortChain.main (with_check m true) cl =
  (pc <- (if truthy (param m "name")
          then cloud_get cl KPortChain (param m "name") else ret PNone) ;;
   ids <- PortChain._port_chains_get_ids m cl false ;;
   c <- PortChain._system_state_change m pc ids ;;
   exit_json c []).
Proof. reflexivity. Qed.

Lemma pc_check_predicts m cl b1 x1 b2 x2 :
  check_mode m = false ->
  outcome (PortChain.main (with_check m true) cl) = inr (Exit b1 x1) ->
  outcome (PortChain.main m cl) = inr (Exit b2 x2) -> b1 = b2.
Proof.
  intros Hc H1 H2; rewrite pc_main_check in H1; unfold PortChain.main in H2; rewrite Hc in H2.
  exit_tac H1; exit_tac H2; predict_tac.
  all: ssc_finish.
Qed.

(** ** What the create and update calls send *)

Lemma ok_bind {A B} (c : M A) (k : A -> M B) b :
  outcome (bind c k) = inl b -> exists a, outcome c = inl a /\ outcome (k a) = inl b.
Proof. rewrite outcome_bind; destruct (outcome c); [eauto | discriminate]. Qed.

(** Follow computations known to return normally, in every hypothesis. *)
Ltac ok_tac :=
  repeat match goal with
  | H : outcome (bind ?c ?k) = inl _ |- _ =>
      let a := fresh "a" in let Ha := fresh "Ha" in let H' := fresh "H" in
      destruct (ok_bind c k _ H) as (a & Ha & H'); clear H; cbv beta iota zeta in H'
  | H : outcome (match ?x with _ => _ end) = inl _ |- _ => destruct x eqn:?
  | H : outcome (ret _) = inl _ |- _ =>
      cbn [ret outcome snd] in H; injection H; clear H; intros; subst
  | H : outcome (lift _) = inl _ |- _ => apply lift_inl in H
  | H : outcome (cloud_get _ _ _) = inl _ |- _ =>
      cbn [cloud_get outcome snd] in H; injection H; clear H; intros; subst
  | H : outcome (fail_json _) = inl _ |- _ => discriminate H
  | H : outcome (raise _) = inl _ |- _ => discriminate H
  | H : outcome (exit_json _ _) = inl _ |- _ => discriminate H
  end.

(** The id a name or id resolves to in a list of the store. *)
Definition resolves (cl : cloud) (k : kind) (n i : pyval) : Prop :=
  getitem (find_obj (objects cl k) n) "id" = inl i.

Lemma pp_get_ids_strict m cl v :
  outcome (PortPair._ports_get_ids m cl true) = inl v ->
  exists i e, resolves cl KPort (param m "ingress") i /\ resolves cl KPort (param m "egress") e
              /\ v = PDict [("ingress", i); ("egress", e)].
Proof.
  unfold PortPair._ports_get_ids; intros H; ok_tac.
  do 2 eexists; split; [eassumption | split; [eassumption | reflexivity]].
Qed.

Lemma ppg_resolve_strict cl names acc v :
  outcome (PortPairGroup.resolve_port_pairs cl true names acc) = inl v ->
  exists ids, Forall2 (resolves cl KPortPair) names ids /\ v = (acc ++ ids)%list.
Proof.
  revert acc; induction names as [|n ns IH]; intros acc H;
    cbn [PortPairGroup.resolve_port_pairs] in H.
  - ok_tac; exists []; rewrite app_nil_r; auto.
  - ok_tac; match goal with
            | H : outcome (PortPairGroup.resolve_port_pairs _ _ _ _) = _ |- _ =>
                destruct (IH _ H) as (ids & Hf & ->)
            end.
    eexists (_ :: ids); split; [constructor; eassumption | now rewrite <- app_assoc].
Qed.

Lemma ppg_get_ids_strict m cl v :
  outcome (PortPairGroup._port_pairs_get_ids m cl true) = inl v ->
  exists names ids, py_iter (param m "port_pairs") = inl names
                    /\ Forall2 (resolves cl KPortPair) names ids /\ v = PList ids.
Proof.
  unfold PortPairGroup._port_pairs_get_ids; intros H; ok_tac.
  match goal with
  | E : outcome (PortPairGroup.resolve_port_pairs _ _ _ _) = _ |- _ =>
      destruct (ppg_resolve_strict _ _ _ _ E) as (ids & Hf & ->)
  end; eauto.
Qed.

Lemma pc_resolve_strict cl k names acc r :
  outcome (PortChain.resolve_refs cl true k names acc) = inl r ->
  exists ids, Forall2 (resolves cl k) names ids /\ r = Some (acc ++ ids)%list.
Proof.
  revert acc; induction names as [|n ns IH]; intros acc H; cbn [PortChain.resolve_refs] in H.
  - ok_tac; exists []; rewrite app_nil_r; auto.
  - ok_tac; match goal with
            | H : outcome (PortChain.resolve_refs _ _ _ _ _) = _ |- _ =>
                destruct (IH _ H) as (ids & Hf & ->)
            end.
    eexists (_ :: ids); split; [constructor; eassumption | now rewrite <- app_assoc].
Qed.

Lemma pc_get_ids_strict m cl v :
  outcome (PortChain._port_chains_get_ids m cl true) = inl v ->
  exists gn gi fn fi,
    truthy (param m "port_pair_groups") = true /\ truthy (param m "flow_classifiers") = true
    /\ py_iter (param m "port_pair_groups") = inl gn /\ Forall2 (resolves cl KPortPairGroup) gn gi
    /\ py_iter (param m "flow_classifiers") = inl fn /\ Forall2 (resolves cl KFlowClassifier) fn fi
    /\ v = PDict [("port_pair_groups", PList gi); ("flow_classifiers", PList fi)].
Proof.
  unfold PortChain._port_chains_get_ids; intros H; ok_tac.
  all: match goal with
       | E : outcome (PortChain.resolve_refs _ _ _ _ _) = inl None |- _ =>
           destruct (pc_resolve_strict _ _ _ _ _ E) as (? & _ & ?); discriminate
       | _ => idtac
       end.
  match goal with
  | E : outcome (PortChain.resolve_refs _ _ KPortPairGroup _ _) = _ |- _ =>
      destruct (pc_resolve_strict _ _ _ _ _ E) as (gi & Hg & [= <-])
  end.
  match goal with
  | E : outcome (PortChain.resolve_refs _ _ KFlowClassifier _ _) = _ |- _ =>
      destruct (pc_resolve_strict _ _ _ _ _ E) as (fi & Hf & [= <-])
  end.
  do 4 eexists; repeat split; try eassumption; apply negb_false_iff; assumption.
Qed.

Lemma compose_loop_other_key m ids ps kw kw' p :
  outcome (PortChain.compose_loop m ids ps kw) = inl kw' -> ~ In p ps ->
  dict_lookup p kw' = dict_lookup p kw.
Proof.
  revert kw; induction ps as [|q ps IH]; intros kw H Hn; cbn [PortChain.compose_loop] in H.
  - now injection H as <-.
  - ok_tac; rewrite (IH _ H) by (intro; apply Hn; now right); [|reflexivity].
    rewrite dict_lookup_set; destruct (String.eqb p q) eqn:Eq; [|reflexivity].
    apply String.eqb_eq in Eq; subst; exfalso; apply Hn; now left.
Qed.

Lemma compose_loop_lookup m d ps kw kw' p v :
  outcome (PortChain.compose_loop m (PDict d) ps kw) = inl kw' -> In p ps -> NoDup ps ->
  is_not_none (param m p) = true -> dict_lookup p d = Some v -> dict_lookup p kw' = Some v.
Proof.
  revert kw; induction ps as [|q ps IH]; intros kw H Hin Hnd Hp Hd; [destruct Hin|].
  inversion Hnd as [|? ? Hq Hnd']; subst; cbn [PortChain.compose_loop] in H.
  destruct Hin as [<-|Hin].
  - rewrite Hp in H; ok_tac.
    match goal with
    | E : outcome (PortChain.compose_loop _ _ _ _) = _ |- _ =>
        rewrite (compose_loop_other_key _ _ _ _ _ _ E Hq)
    end.
    match goal with
    | E : dict_get _ _ _ = inl _ |- _ => cbn [dict_get] in E; rewrite Hd in E; injection E as <-
    end.
    rewrite dict_lookup_set, String.eqb_refl; reflexivity.
  - destruct (is_not_none (param m q)); ok_tac; eauto.
Qed.

(** The id an option of the flow classifier resolves to: [None] when the
    option is not given or names no port. *)
Definition port_id_of (cl : cloud) (v : pyval) : option pyval :=
  if is_not_none v then
    let p := find_obj (c_ports cl) v in
    if is_none p then None
    else match getitem p "id" with inl i => Some i | inr _ => None end
  else None.

Lemma fc_get_ids_value m cl v :
  outcome (FlowClassifier._ports_get_ids m cl false) = inl v ->
  exists d, v = PDict d
            /\ forall key, In key fc_ports -> dict_lookup key d = port_id_of cl (param m key).
Proof.
  unfold FlowClassifier._ports_get_ids, FlowClassifier.resolve_port; intros H; ok_tac;
    (eexists; split; [reflexivity|]); intros key [<-|[<-|[]]]; unfold port_id_of;
    cbn [objects] in *;
    repeat match goal with E : ?x = _ |- context [?x] => rewrite E end;
    reflexivity.
Qed.

Lemma fc_compose_ports m d kw key :
  outcome (FlowClassifier._compose_flow_classifier_args m (PDict d)) = inl kw ->
  In key fc_ports -> dict_lookup key kw = dict_lookup key d.
Proof.
  unfold FlowClassifier._compose_flow_classifier_args; intros H Hk; cbv zeta in H.
  cbn [py_contains getitem] in H.
  destruct (dict_lookup "logical_source_port" d) eqn:Es;
    destruct (dict_lookup "logical_destination_port" d) eqn:Ed;
    cbn [lift bind ret outcome snd] in H; injection H as <-;
    destruct Hk as [<-|[<-|[]]]; rewrite ?dict_lookup_set;
    cbv [String.eqb Ascii.eqb Bool.eqb]; unfold collect_params;
    rewrite ?collect_params_other by (cbn; intuition discriminate);
    rewrite ?Es, ?Ed; reflexivity.
Qed.

(** Each given logical port either finds nothing or finds a port with an id. *)
Definition ports_lookup_ok (cl : cloud) (m : module) : Prop :=
  forall key, In key fc_ports -> is_not_none (param m key) = true ->
    find_obj (c_ports cl) (param m key) = PNone
    \/ exists i, resolves cl KPort (param m key) i.

Lemma fc_resolve_port_returns m cl key msg d :
  In key fc_ports -> ports_lookup_ok cl m ->
  exists d', outcome (FlowClassifier.resolve_port m cl false key msg d) = inl d'.
Proof.
  intros Hk H; unfold FlowClassifier.resolve_port; cbv zeta.
  destruct (is_not_none (param m key)) eqn:E; [|eexists; reflexivity].
  rewrite outcome_bind; cbn [cloud_get outcome snd objects].
  destruct (H key Hk E) as [N | [i I]].
  - rewrite N; eexists; reflexivity.
  - unfold resolves in I; cbn [objects] in I.
    rewrite (getitem_ok_not_none _ _ _ I); cbn [negb]; rewrite outcome_bind, I.
    eexists; reflexivity.
Qed.

Lemma fc_get_ids_returns m cl :
  ports_lookup_ok cl m ->
  exists d, outcome (FlowClassifier._ports_get_ids m cl false) = inl (PDict d).
Proof.
  intros H; unfold FlowClassifier._ports_get_ids.
  rewrite outcome_bind.
  destruct (fc_resolve_port_returns m cl "logical_source_port"
              "Specified logical source port was not found." [] ltac:(cbn; tauto) H) as [d1 ->].
  rewrite outcome_bind.
  destruct (fc_resolve_port_returns m cl "logical_destination_port"
              "Specified logical destination port was not found." d1 ltac:(cbn; tauto) H) as [d2 ->].
  eexists; reflexivity.
Qed.

Lemma fc_compose_returns m d :
  exists kw, FlowClassifier._compose_flow_classifier_args m (PDict d) = ([], inl kw).
Proof.
  unfold FlowClassifier._compose_flow_classifier_args; cbv zeta; cbn [py_contains getitem].
  destruct (dict_lookup "logical_source_port" d); destruct (dict_lookup "logical_destination_port" d);
    eexists; reflexivity.
Qed.

(** Create payload of the port pair: the ids the ports resolved to, the
    other options as supplied. *)
Definition pp_create_sends (m : module) (cl : cloud) (x : call) : Prop :=
  match x with
  | Create _ kw =>
      exists i e, resolves cl KPort (param m "ingress") i
                  /\ resolves cl KPort (param m "egress") e
                  /\ dict_lookup "ingress" kw = Some i /\ dict_lookup "egress" kw = Some e
                  /\ carries m kw ["name"; "service_function_parameters"]
  | _ => True
  end.

(** Create payload of the port pair group: the ids of the port pairs, in
    the order given. *)
Definition ppg_create_sends (m : module) (cl : cloud) (x : call) : Prop :=
  match x with
  | Create _ kw =>
      exists names ids, py_iter (param m "port_pairs") = inl names
                        /\ Forall2 (resolves cl KPortPair) names ids
                        /\ dict_lookup "port_pairs" kw = Some (PList ids)
                        /\ carries m kw ["name"; "port_pair_group_parameters"]
  | _ => True
  end.

(** Create payload of the port chain: the ids of the port pair groups and
    of the flow classifiers, in the order given. *)
Definition pc_create_sends (m : module) (cl : cloud) (x : call) : Prop :=
  match x with
  | Create _ kw =>
      exists gn gi fn fi,
        py_iter (param m "port_pair_groups") = inl gn
        /\ Forall2 (resolves cl KPortPairGroup) gn gi
        /\ py_iter (param m "flow_classifiers") = inl fn
        /\ Forall2 (resolves cl KFlowClassifier) fn fi
        /\ dict_lookup "port_pair_groups" kw = Some (PList gi)
        /\ dict_lookup "flow_classifiers" kw = Some (PList fi)
  | _ => True
  end.

Lemma gets_ok_pp_create_sends m cl : GetsOk (pp_create_sends m cl).
Proof. intros k key; exact I. Qed.
Lemma gets_ok_ppg_create_sends m cl : GetsOk (ppg_create_sends m cl).
Proof. intros k key; exact I. Qed.
Lemma gets_ok_pc_create_sends m cl : GetsOk (pc_create_sends m cl).
Proof. intros k key; exact I. Qed.
#[export] Hint Resolve gets_ok_pp_create_sends gets_ok_ppg_create_sends gets_ok_pc_create_sends
  : calls.

Lemma nodup_pc_options :
  NoDup ["name"; "port_pair_groups"; "flow_classifiers"; "chain_parameters"; "chain_id"].
Proof. repeat constructor; cbn; intuition discriminate. Qed.

(** ** Unresolved references *)

(** The loop of [_port_pairs_get_ids] stops at the first name that finds
    no port pair. *)
Lemma ppg_resolve_first_missing cl pre n post acc :
  Forall (fun p => exists i, resolves cl KPortPair p i) pre ->
  find_obj (c_port_pairs cl) n = PNone ->
  outcome (PortPairGroup.resolve_port_pairs cl true (pre ++ n :: post) acc)
  = inr (Fail ("Specified port pair `" ++ py_str n ++ "' was not found.")).
Proof.
  intros Hpre Hn; revert acc; induction Hpre as [|p ps [i Hi] _ IH]; intros acc; cbn [app].
  - cbn [PortPairGroup.resolve_port_pairs]; rewrite outcome_bind; cbn [cloud_get outcome snd objects].
    rewrite Hn; reflexivity.
  - cbn [PortPairGroup.resolve_port_pairs]; rewrite outcome_bind; cbn [cloud_get outcome snd].
    unfold resolves in Hi; rewrite (getitem_ok_not_none _ _ _ Hi); cbn [andb ret].
    rewrite outcome_bind; cbn [outcome snd]; rewrite outcome_bind, Hi; apply IH.
Qed.

(** The loops of [_port_chains_get_ids] stop at the first name that finds
    nothing, with the message of the port pair group loop in both. *)
Lemma pc_resolve_first_missing cl k pre n post acc :
  Forall (fun p => exists i, resolves cl k p i) pre ->
  find_obj (objects cl k) n = PNone ->
  outcome (PortChain.resolve_refs cl true k (pre ++ n :: post) acc)
  = inr (Fail ("Specified port pair group `" ++ py_str n ++ "' wat not found.")).
Proof.
  intros Hpre Hn; revert acc; induction Hpre as [|p ps [i Hi] _ IH]; intros acc; cbn [app].
  - cbn [PortChain.resolve_refs]; rewrite outcome_bind; cbn [cloud_get outcome snd].
    rewrite Hn; reflexivity.
  - cbn [PortChain.resolve_refs]; rewrite outcome_bind; cbn [cloud_get outcome snd].
    unfold resolves in Hi; rewrite (getitem_ok_not_none _ _ _ Hi); cbn [negb].
    rewrite outcome_bind, Hi; apply IH.
Qed.

(** ** Order of the port pairs of a group *)

Lemma forallb_perm {X} (f : X -> bool) l l' : Permutation l l' -> forallb f l = forallb f l'.
Proof.
  induction 1 as [|x l l' _ IH|x y l|l l' l'' _ IH1 _ IH2]; cbn.
  - reflexivity.
  - rewrite IH; reflexivity.
  - rewrite !andb_assoc, (andb_comm (f y)); reflexivity.
  - rewrite IH1; exact IH2.
Qed.

Lemma existsb_perm {X} (f : X -> bool) l l' : Permutation l l' -> existsb f l = existsb f l'.
Proof.
  induction 1 as [|x l l' _ IH|x y l|l l' l'' _ IH1 _ IH2]; cbn.
  - reflexivity.
  - rewrite IH; reflexivity.
  - rewrite !orb_assoc, (orb_comm (f y)); reflexivity.
  - rewrite IH1; exact IH2.
Qed.

Lemma set_eqb_perm_l a a' b : Permutation a a' -> set_eqb a b = set_eqb a' b.
Proof.
  intros H; unfold set_eqb, py_in; rewrite (forallb_perm _ _ _ H); f_equal.
  induction b as [|y b IH]; cbn; [reflexivity|].
  rewrite (existsb_perm _ _ _ H), IH; reflexivity.
Qed.

(** ** Ports given by name *)

Lemma mutations_bind {A B} (c : M A) (k : A -> M B) :
  mutations (trace (bind c k))
  = (mutations (trace c) ++ match outcome c with
                            | inl a => mutations (trace (k a)) | inr _ => [] end)%list.
Proof. rewrite trace_bind, mutations_app; destruct (outcome c); reflexivity. Qed.

Lemma pp_get_ids_resolved m cl i e :
  truthy (param m "ingress") = true -> truthy (param m "egress") = true ->
  resolves cl KPort (param m "ingress") i -> resolves cl KPort (param m "egress") e ->
  PortPair._ports_get_ids m cl true
  = ([Get KPort (param m "ingress"); Get KPort (param m "egress")],
     inl (PDict [("ingress", i); ("egress", e)])).
Proof.
  unfold resolves; intros Ti Te Gi Ge; unfold PortPair._ports_get_ids; cbv zeta.
  rewrite Ti, Te; cbv beta iota zeta delta [negb cloud_get bind].
  rewrite (getitem_ok_not_none _ _ _ Gi), (getitem_ok_not_none _ _ _ Ge), Gi, Ge.
  reflexivity.
Qed.

(** [_needs_update] reports a change as soon as [ingress] differs from the
    id it resolved to. *)
Lemma pp_needs_update_ingress m pp i e d :
  is_not_none (param m "ingress") = true -> py_ne (param m "ingress") i = true ->
  getitem pp "ingress" = inl d ->
  PortPair._needs_update m pp (PDict [("ingress", i); ("egress", e)]) = ([], inl true).
Proof.
  intros Hn Hne Hd; unfold PortPair._needs_update; cbv zeta; cbn [for_any].
  cbv beta iota zeta delta [bind lift get_attr ret]; rewrite Hd.
  cbv beta iota zeta delta [dict_get dict_lookup String.eqb Ascii.eqb Bool.eqb].
  rewrite Hn, Hne; reflexivity.
Qed.

(** ** Sample store and invocations *)

Module Sample.

Definition port1 := PDict [("id", PStr "p1-id"); ("name", PStr "port1")].
Definition port2 := PDict [("id", PStr "p2-id"); ("name", PStr "port2")].

Definition pp1 := PDict [("id", PStr "pp-id-1"); ("name", PStr "pp1");
  ("ingress", PStr "p1-id"); ("egress", PStr "p2-id");
  ("service_function_parameters", PDict [("correlation", PStr "mpls")])].
Definition pp2 := PDict [("id", PStr "pp-id-2"); ("name", PStr "pp2");
  ("ingress", PStr "p2-id"); ("egress", PStr "p1-id");
  ("service_function_parameters", PNone)].

Definition ppg1 := PDict [("id", PStr "ppg-id-1"); ("name", PStr "ppg1");
  ("port_pairs", PList [PStr "pp-id-1"; PStr "pp-id-2"]);
  ("port_pair_group_parameters", PNone)].

Definition fc1 := PDict [("id", PStr "fc-id-1"); ("name", PStr "fc1");
  ("ethertype", PStr "IPv4"); ("protocol", PNone);
  ("source_port_range_min", PNone); ("source_port_range_max", PNone);
  ("destination_port_range_min", PNone); ("destination_port_range_max", PNone);
  ("source_ip_prefix", PStr "10.20.0.0/24"); ("destination_ip_prefix", PStr "10.22.2.0/24");
  ("logical_source_port", PNone); ("logical_destination_port", PNone);
  ("l7_parameters", PDict [])].

Definition pc1 := PDict [("id", PStr "pc-id-1"); ("name", PStr "pc1");
  ("port_pair_groups", PList [PStr "ppg-id-1"]);
  ("flow_classifiers", PList [PStr "fc-id-1"]);
  ("chain_parameters", PDict [("correlation", PStr "mpls")]);
  ("chain_id", PNone)].

Definition store := {|
  c_ports := [port1; port2];
  c_port_pairs := [pp1; pp2];
  c_port_pair_groups := [ppg1];
  c_flow_classifiers := [fc1];
  c_port_chains := [pc1];
  c_next_id := "new-id" |}.

Definition invoke (ps : pydict) (st : State) (chk : bool) : module :=
  {| params := ps; state := st; check_mode := chk |}.

(** Scenario 2: the port pairs of [ppg1] given in the other order. *)
Definition ppg_reordered :=
  invoke [("name", PStr "ppg1"); ("port_pairs", PList [PStr "pp2"; PStr "pp1"])] Present false.

(** The port chain [pc1] with its references unchanged. *)
Definition pc_same :=
  invoke [("name", PStr "pc1"); ("port_pair_groups", PList [PStr "ppg1"]);
          ("flow_classifiers", PList [PStr "fc1"])] Present false.

(** Scenario 5: [pp1] with [correlation: nsh]. *)
Definition pp_nsh :=
  invoke [("name", PStr "pp1"); ("ingress", PStr "p1-id"); ("egress", PStr "p2-id");
          ("service_function_parameters", PDict [("correlation", PStr "nsh")])] Present false.

(** The port chain [pc1] with [correlation: nsh] and references unchanged. *)
Definition pc_nsh :=
  invoke [("name", PStr "pc1"); ("port_pair_groups", PList [PStr "ppg1"]);
          ("flow_classifiers", PList [PStr "fc1"]);
          ("chain_parameters", PDict [("correlation", PStr "nsh")])] Present false.

(** Scenario 4: an ingress port name that does not resolve. *)
Definition pp_bad_ingress :=
  invoke [("name", PStr "pp3"); ("ingress", PStr "port9"); ("egress", PStr "port2")]
         Present false.

(** A new port pair whose egress port does not exist. *)
Definition pp_bad_egress :=
  invoke [("name", PStr "pp3"); ("ingress", PStr "port1"); ("egress", PStr "port9")]
         Present false.

(** Deleting a port pair that does not exist, in check mode, by name only. *)
Definition pp_absent_check := invoke [("name", PStr "pp9")] Absent true.

(** A port chain whose port pair group does not resolve, without flow
    classifiers. *)
Definition pc_no_fc_bad_ppg :=
  invoke [("name", PStr "pc2"); ("port_pair_groups", PList [PStr "nope"])] Present false.

(** [ppg1] with one of its two port pairs. *)
Definition ppg_shrunk :=
  invoke [("name", PStr "ppg1"); ("port_pairs", PList [PStr "pp2"])] Present false.

(** A new port pair without a name. *)
Definition pp_unnamed :=
  invoke [("ingress", PStr "p1-id"); ("egress", PStr "p2-id")] Present false.

(** A new port pair group and a new port pair, referring by id. *)
Definition ppg_new :=
  invoke [("name", PStr "ppg2"); ("port_pairs", PList [PStr "pp1"])] Present false.
Definition pp_new :=
  invoke [("name", PStr "pp3"); ("ingress", PStr "p2-id"); ("egress", PStr "p2-id")] Present false.

(** A new port chain without flow classifiers. *)
Definition pc_no_fc :=
  invoke [("name", PStr "pc2"); ("port_pair_groups", PList [PStr "ppg1"])] Present false.

(** A port chain without flow classifiers whose second port pair group
    does not exist. *)
Definition pc_no_fc_second_bad :=
  invoke [("name", PStr "pc2"); ("port_pair_groups", PList [PStr "ppg1"; PStr "nope"])]
    Present false.

(** The existing port pair [pp1] without its ports. *)
Definition pp1_no_ports := invoke [("name", PStr "pp1")] Present false.

(** A port pair group whose second port pair does not exist. *)
Definition ppg_bad_pp :=
  invoke [("name", PStr "ppg2"); ("port_pairs", PList [PStr "pp1"; PStr "nope"])] Present false.

(** A port chain whose flow classifier does not exist. *)
Definition pc_bad_fc :=
  invoke [("name", PStr "pc2"); ("port_pair_groups", PList [PStr "ppg1"]);
          ("flow_classifiers", PList [PStr "nope"])] Present false.

(** The port pair [pp1] with its own ports, given by port name. *)
Definition pp1_by_port_names :=
  invoke [("name", PStr "pp1"); ("ingress", PStr "port1"); ("egress", PStr "port2")]
         Present false.

(** A new flow classifier whose logical source port does not exist. *)
Definition fc_lost_src :=
  invoke [("name", PStr "fc2"); ("logical_source_port", PStr "port9");
          ("logical_destination_port", PStr "port2")] Present false.

End Sample.

(** * Claims *)

Module Claims.
Import Sample.

(** Claim C1 (code bug).  Reordering the port pairs of an existing port
    pair group is not a reason to update: the run reports changed=false.
    The port chain, however, crashes as soon as one of its list-ref fields
    is supplied: [_needs_update] evaluates [module.param[key]], and
    [AnsibleModule] has no attribute [param].  With every reference
    unchanged the run ends in an [AttributeError] instead of changed=false. *)
Theorem reordered_refs_port_chain_crash :
  (exists extras, outcome (run RPortPairGroup ppg_reordered store) = inr (Exit false extras))
  /\ outcome (run RPortChain pc_same store)
     = inr (Crash (AttributeError "'AnsibleModule' object has no attribute 'param'")).
Proof. split; [eexists|]; vm_compute; reflexivity. Qed.

(** Claim C2, refuted.  A port pair request without a name is never
    looked up: running it twice creates the port pair twice, and both
    runs report changed=true. *)
Lemma unnamed_port_pair_created_twice :
  param pp_unnamed "name" = PNone
  /\ (exists x1 x2,
        outcome (run RPortPair pp_unnamed store) = inr (Exit true x1)
        /\ outcome (run RPortPair pp_unnamed
                      (commit_all store (trace (run RPortPair pp_unnamed store))))
           = inr (Exit true x2)).
Proof. split; [reflexivity | do 2 eexists; split; reflexivity]. Qed.

(** Claim C2, as the code does it.  For a port pair, a port pair group
    or a flow classifier, outside check mode with state present, a name
    that matches no object of that kind, ports given by their ids and
    port pairs with hashable ids: when the first run ends with
    [exit_json] it reports changed=true, and a second run on the store
    holding the object it created reports changed=false. *)
Theorem present_twice r m cl :
  r <> RPortChain -> check_mode m = false -> state m = Present ->
  truthy (param m "name") = true ->
  find_obj (objects cl (resource_kind r)) (param m "name") = PNone ->
  refs_by_id cl m (port_refs r) -> port_pair_ids_hashable cl ->
  forall b x, outcome (run r m cl) = inr (Exit b x) ->
  b = true /\
  exists x', outcome (run r m (commit_all cl (trace (run r m cl)))) = inr (Exit false x').
Proof.
  intros Hr Hcm Hst Tn Hf Hrefs Hh b x Hx; destruct r; cbn [run resource_kind port_refs objects] in *.
  - destruct (truthy (param m "ingress")) eqn:Ti.
    2:{ destruct (pp_main_stops m cl (Fail "Parameter 'ingress' is required in Sfc Port Pair Create")
                    Hcm Hst) as [Ho _];
        [unfold PortPair._ports_get_ids; cbv zeta; rewrite Ti; reflexivity | congruence]. }
    destruct (truthy (param m "egress")) eqn:Te.
    2:{ destruct (pp_main_stops m cl (Fail "Parameter 'egress' is required in Sfc Port Pair Create")
                    Hcm Hst) as [Ho _];
        [unfold PortPair._ports_get_ids; cbv zeta; rewrite Ti, Te; reflexivity | congruence]. }
    pose proof (Hrefs "ingress" (or_introl eq_refl) (truthy_not_none _ Ti)) as Gi.
    pose proof (Hrefs "egress" (or_intror (or_introl eq_refl)) (truthy_not_none _ Te)) as Ge.
    rewrite (pp_first_run m cl Hcm Hst Tn Ti Te Gi Ge Hf) in Hx |- *.
    injection Hx as <- _; split; [reflexivity|]; cbn [trace fst].
    rewrite (pp_second_run m cl Hcm Hst Tn Ti Te Gi Ge (pp_create_kwargs m)
               (commit_all cl [Get KPortPair (param m "name"); Get KPort (param m "ingress");
                               Get KPort (param m "egress"); Create KPortPair (pp_create_kwargs m)])
               (c_port_pairs cl) (pp_create_kwargs_carries m) eq_refl eq_refl).
    eexists; reflexivity.
  - destruct (PortPairGroup._port_pairs_get_ids m cl true) as [t [v|s]] eqn:E.
    + destruct (ppg_get_ids_ok m cl t v Hh E) as (ids & -> & Hids & Ht).
      rewrite (ppg_first_run m cl Hcm Hst Tn t ids Hf E) in Hx |- *.
      injection Hx as <- _; split; [reflexivity|]; cbn [trace fst].
      rewrite (commit_all_create _ _ _ _ _ Ht).
      rewrite (ppg_second_run m cl Hcm Hst Tn t ids (ppg_create_kwargs m ids)
                 (with_objects cl KPortPairGroup
                    (created_obj cl KPortPairGroup (ppg_create_kwargs m ids)
                       :: objects cl KPortPairGroup))
                 (c_port_pair_groups cl) Hids E (ppg_create_kwargs_port_pairs m ids)
                 (ppg_create_kwargs_carries m ids) eq_refl eq_refl).
      eexists; reflexivity.
    + destruct (ppg_main_stops m cl s Hcm Hst) as [Ho _]; [rewrite E; reflexivity|].
      pose proof (noexit_ppg_get_ids m cl true s) as Hn; rewrite E in Hn.
      specialize (Hn eq_refl); rewrite Ho in Hx; injection Hx as ->; discriminate Hn.
  - rewrite (fc_first_run m cl Hcm Hst Tn Hrefs Hf) in Hx |- *.
    injection Hx as <- _; split; [reflexivity|]; cbn [trace fst].
    rewrite (commit_all_create _ _ _ _ _ (fc_port_trace_reads m)).
    rewrite (fc_second_run m cl Hcm Hst Tn Hrefs (fc_create_kwargs m)
               (with_objects cl KFlowClassifier
                  (created_obj cl KFlowClassifier (fc_create_kwargs m)
                     :: objects cl KFlowClassifier))
               (c_flow_classifiers cl) (fc_create_kwargs_carries m) eq_refl eq_refl).
    eexists; reflexivity.
  - contradiction Hr; reflexivity.
Qed.

Lemma present_twice_witness :
  (exists x', outcome (run RPortPairGroup ppg_new
                         (commit_all store (trace (run RPortPairGroup ppg_new store))))
              = inr (Exit false x'))
  /\ (exists x', outcome (run RPortPair pp_new
                           (commit_all store (trace (run RPortPair pp_new store))))
                = inr (Exit false x')).
Proof.
  split.
  - refine (proj2 (present_twice RPortPairGroup ppg_new store _ _ _ _ _ _ _ true
                     [("id", PStr "new-id");
                      ("port_pair_group",
                       created_obj store KPortPairGroup (ppg_create_kwargs ppg_new [PStr "pp-id-1"]))]
                     _));
      [discriminate | reflexivity | reflexivity | reflexivity | vm_compute; reflexivity
      | intros key [] | | vm_compute; reflexivity].
    intros o i Ho Hi; vm_compute in Ho.
    destruct Ho as [<-|[<-|[]]]; vm_compute in Hi; injection Hi as <-; reflexivity.
  - refine (proj2 (present_twice RPortPair pp_new store _ _ _ _ _ _ _ true
                     [("id", PStr "new-id");
                      ("port_pair", created_obj store KPortPair (pp_create_kwargs pp_new))]
                     _));
      [discriminate | reflexivity | reflexivity | reflexivity | vm_compute; reflexivity
      | | | vm_compute; reflexivity].
    + intros key Hk _; vm_compute in Hk.
      destruct Hk as [<-|[<-|[]]]; vm_compute; reflexivity.
    + intros o i Ho Hi; vm_compute in Ho.
      destruct Ho as [<-|[<-|[]]]; vm_compute in Hi; injection Hi as <-; reflexivity.
Defined.

(** Claim C3.  In check mode no run of any resource kind issues a create,
    update or delete call, and the run stops either by exiting with the
    changed flag and nothing else, or by a Python exception. *)
Theorem check_mode_read_only r m cl :
  check_mode m = true ->
  mutations (trace (run r m cl)) = [] /\
  exists s, outcome (run r m cl) = inr s /\
            ((exists b, s = Exit b []) \/ (exists e, s = Crash e)).
Proof.
  intros H; split.
  - apply avoid_mutations, check_mode_avoid, H.
  - destruct (check_mode_ends r m cl H) as (s & Hs & [He | Hb]).
    + exists s; split; [exact Hs | now right].
    + exists s; split; [exact Hs | now left].
Qed.

Lemma check_mode_read_only_witness :
  mutations (trace (run RPortPair (invoke (params pp_nsh) Present true) store)) = [] /\
  exists s, outcome (run RPortPair (invoke (params pp_nsh) Present true) store) = inr s /\
            ((exists b, s = Exit b []) \/ (exists e, s = Crash e)).
Proof. apply check_mode_read_only; reflexivity. Defined.

(** Claim C4, refuted.  Updating the service function parameters of the
    existing port pair [pp1] sends an update payload that contains the
    name field. *)
Lemma port_pair_update_payload_has_name :
  exists k id kw, In (Update k id kw) (trace (run RPortPair pp_nsh store))
                  /\ dict_lookup "name" kw = Some (PStr "pp1").
Proof.
  exists KPortPair, (PStr "pp-id-1"), (params pp_nsh); split; vm_compute; [|reflexivity].
  right; right; right; left; reflexivity.
Qed.

(** Claim C4, as the code does it.  Every update call, of any resource
    kind, carries in its keyword payload the name field, equal to the
    name the caller supplied, and that name is non-empty. *)
Theorem update_payload_carries_name r m cl k id kw :
  In (Update k id kw) (trace (run r m cl)) ->
  dict_lookup "name" kw = Some (param m "name") /\ truthy (param m "name") = true.
Proof.
  intros H.
  assert (Hc : Calls (name_in_update m) (run r m cl)).
  { destruct r; cbn [run].
    - apply pp_updates_carry_name.
    - apply ppg_updates_carry_name.
    - apply fc_updates_carry_name.
    - apply pc_updates_carry_name. }
  exact (Hc _ H k id kw eq_refl).
Qed.

Lemma update_payload_carries_name_witness :
  dict_lookup "name" (params pp_nsh) = Some (param pp_nsh "name")
  /\ truthy (param pp_nsh "name") = true.
Proof.
  apply (update_payload_carries_name RPortPair pp_nsh store KPortPair (PStr "pp-id-1")).
  vm_compute; right; right; right; left; reflexivity.
Defined.

(** Claim C5 (code bug).  For the port pair of scenario 5 the decision is
    true and the update sends the new dict.  The port chain's
    [compare_dict] loop compares [chain_parameters] with [value], the
    variable left over from the list loop, not with the object's
    [chain_parameters]: when the supplied dict equals the current one the
    decision is still true.  And whenever the list-ref fields are supplied,
    as they must be for the run to reach the decision, the run crashes
    before it: changing only [chain_parameters] of [pc1] yields an
    [AttributeError] rather than an update. *)
Theorem dict_field_port_chain_divergence :
  PortPair._needs_update pp_nsh pp1 (PDict [])
    = ([], inl true)
  /\ In (Update KPortPair (PStr "pp-id-1") (params pp_nsh)) (trace (run RPortPair pp_nsh store))
  /\ snd (PortChain._needs_update
            (invoke [("name", PStr "pc1");
                     ("chain_parameters", PDict [("correlation", PStr "mpls")])] Present false)
            pc1 (PDict [("port_pair_groups", PList [PStr "ppg-id-1"]);
                        ("flow_classifiers", PList [PStr "fc-id-1"])]))
     = inl true
  /\ outcome (run RPortChain pc_nsh store)
     = inr (Crash (AttributeError "'AnsibleModule' object has no attribute 'param'")).
Proof.
  split; [vm_compute; reflexivity|].
  split; [vm_compute; right; right; right; left; reflexivity|].
  split; vm_compute; reflexivity.
Qed.

(** Claim C6, refuted.  A port chain request without flow classifiers
    whose port pair group does not resolve fails with the not-found error
    of the port pair group, not with a missing-field error. *)
Lemma missing_fc_reported_as_not_found :
  param pc_no_fc_bad_ppg "flow_classifiers" = PNone
  /\ outcome (run RPortChain pc_no_fc_bad_ppg store)
     = inr (Fail "Specified port pair group `nope' wat not found.").
Proof. split; vm_compute; reflexivity. Qed.

(** Claim C6, as the code does it.  Outside check mode, with state present:
    a port pair group request with empty or absent [port_pairs], and a port
    chain request with empty or absent [port_pair_groups], fail with the
    field's missing-parameter message; a port chain request with empty or
    absent [flow_classifiers] fails with that field's message once its
    port pair groups all resolve, and with the not-found message of the
    first port pair group that finds nothing (every earlier one resolving)
    even then: the earlier field's error comes first.  In every case the
    run stops, by [fail_json] or an exception, before any create, update or
    delete call. *)
Theorem required_list_refs_checked m cl :
  check_mode m = false -> state m = Present ->
  (truthy (param m "port_pairs") = false ->
     outcome (run RPortPairGroup m cl)
       = inr (Fail "Parameter 'port_pairs' is required in Sfc Port Pair Group Create")
     /\ mutations (trace (run RPortPairGroup m cl)) = [])
  /\ (truthy (param m "port_pair_groups") = false ->
     outcome (run RPortChain m cl)
       = inr (Fail "Parameter 'port_pair_groups' is required in Sfc Port Chain Create")
     /\ mutations (trace (run RPortChain m cl)) = [])
  /\ (truthy (param m "flow_classifiers") = false ->
      mutations (trace (run RPortChain m cl)) = []
      /\ (exists s, outcome (run RPortChain m cl) = inr s
                    /\ ((exists msg, s = Fail msg) \/ (exists e, s = Crash e)))
      /\ (forall ns, param m "port_pair_groups" = PList ns -> ns <> [] ->
          Forall (fun n => exists i, getitem (find_obj (c_port_pair_groups cl) n) "id" = inl i) ns ->
          outcome (run RPortChain m cl)
            = inr (Fail "Parameter 'flow_classifiers' is required in Sfc Port Chain Create"))
      /\ (forall pre n post,
          truthy (param m "port_pair_groups") = true ->
          py_iter (param m "port_pair_groups") = inl (pre ++ n :: post)%list ->
          Forall (fun p => exists i, resolves cl KPortPairGroup p i) pre ->
          find_obj (c_port_pair_groups cl) n = PNone ->
          outcome (run RPortChain m cl)
            = inr (Fail ("Specified port pair group `" ++ py_str n ++ "' wat not found.")))).
Proof.
  intros Hcm Hst; split; [|split].
  - intros H; apply ppg_main_stops; try assumption.
    unfold PortPairGroup._port_pairs_get_ids; rewrite H; reflexivity.
  - intros H; apply pc_main_stops; try assumption.
    unfold PortChain._port_chains_get_ids; rewrite H; reflexivity.
  - intros Hfc; destruct (pc_get_ids_no_fc m cl Hfc) as (s & Hs & Hk).
    destruct (pc_main_stops m cl s Hcm Hst Hs) as [Ho Hm].
    split; [exact Hm | split; [exists s; split; assumption|split]].
    2:{ intros pre n post Tg Ig Fpre Hn; apply pc_main_stops; try assumption.
        unfold PortChain._port_chains_get_ids; cbv zeta; rewrite Tg; cbn [negb].
        rewrite outcome_bind, Ig; cbn [lift outcome snd].
        rewrite outcome_bind, (pc_resolve_first_missing cl KPortPairGroup pre n post [] Fpre Hn).
        reflexivity. }
    intros ns Hns Hne Hall; apply pc_main_stops; try assumption.
    unfold PortChain._port_chains_get_ids; rewrite Hns.
    destruct ns as [|n ns']; [congruence|]; cbn [truthy negb].
    rewrite outcome_bind; cbn [py_iter lift outcome snd]; rewrite outcome_bind.
    destruct (resolve_refs_all cl KPortPairGroup (n :: ns') [] Hall) as [ids ->].
    rewrite Hfc; reflexivity.
Qed.

Lemma required_list_refs_checked_witness :
  outcome (run RPortChain pc_no_fc store)
    = inr (Fail "Parameter 'flow_classifiers' is required in Sfc Port Chain Create")
  /\ outcome (run RPortChain pc_no_fc_second_bad store)
    = inr (Fail "Specified port pair group `nope' wat not found.").
Proof.
  split.
  - destruct (required_list_refs_checked pc_no_fc store) as (_ & _ & H); [reflexivity | reflexivity |].
    destruct (H ltac:(vm_compute; reflexivity)) as (_ & _ & H3 & _).
    apply (H3 [PStr "ppg1"]); [vm_compute; reflexivity | discriminate |].
    repeat constructor; vm_compute; eexists; reflexivity.
  - destruct (required_list_refs_checked pc_no_fc_second_bad store) as (_ & _ & H);
      [reflexivity | reflexivity |].
    destruct (H ltac:(vm_compute; reflexivity)) as (_ & _ & _ & H4).
    apply (H4 [PStr "ppg1"] (PStr "nope") []); [reflexivity | reflexivity | | reflexivity].
    repeat constructor; eexists; reflexivity.
Defined.

(** Claim C7, refuted.  An ingress port name that does not resolve makes
    the run fail before any create call, but with the fixed message
    "Specified ingress port was not found.", which names the field and not
    the supplied value [port9]. *)
Lemma ingress_message_omits_value :
  outcome (run RPortPair pp_bad_ingress store)
    = inr (Fail "Specified ingress port was not found.")
  /\ mutations (trace (run RPortPair pp_bad_ingress store)) = [].
Proof. split; vm_compute; reflexivity. Qed.

(** Claim C7, as the code does it.  Outside check mode, with state present
    and both ports given: when the ingress port finds nothing, the port
    pair run fails with "Specified ingress port was not found."; when the
    ingress resolves and the egress port finds nothing, it fails with
    "Specified egress port was not found.".  Each message names the field,
    is the same whatever value was supplied, and the run makes no create,
    update or delete call. *)
Theorem unresolved_port_fixed_message m cl :
  check_mode m = false -> state m = Present ->
  truthy (param m "ingress") = true -> truthy (param m "egress") = true ->
  (find_obj (c_ports cl) (param m "ingress") = PNone ->
   outcome (run RPortPair m cl) = inr (Fail "Specified ingress port was not found.")
   /\ mutations (trace (run RPortPair m cl)) = [])
  /\ (forall i, resolves cl KPort (param m "ingress") i ->
      find_obj (c_ports cl) (param m "egress") = PNone ->
      outcome (run RPortPair m cl) = inr (Fail "Specified egress port was not found.")
      /\ mutations (trace (run RPortPair m cl)) = []).
Proof.
  intros Hc Hs Ti Te; split; [intros Hn | intros i Hi Hn]; apply pp_main_stops; auto;
    unfold PortPair._ports_get_ids; cbv zeta; rewrite Ti, Te; cbn [negb].
  - rewrite outcome_bind; cbn [cloud_get outcome snd objects]; rewrite Hn; reflexivity.
  - rewrite outcome_bind; cbn [cloud_get outcome snd objects].
    unfold resolves in Hi; cbn [objects] in Hi.
    rewrite (getitem_ok_not_none _ _ _ Hi); cbn [negb].
    rewrite outcome_bind, Hi; cbn [lift bind ret cloud_get outcome snd objects app].
    rewrite Hn; reflexivity.
Qed.

Lemma unresolved_port_fixed_message_witness :
  outcome (run RPortPair pp_bad_ingress store)
    = inr (Fail "Specified ingress port was not found.")
  /\ outcome (run RPortPair pp_bad_egress store)
    = inr (Fail "Specified egress port was not found.").
Proof.
  split.
  - apply (proj1 (unresolved_port_fixed_message pp_bad_ingress store
                    eq_refl eq_refl eq_refl eq_refl) eq_refl).
  - apply (proj2 (unresolved_port_fixed_message pp_bad_egress store
                    eq_refl eq_refl eq_refl eq_refl) (PStr "p1-id")); reflexivity.
Defined.

(** Claim C8 (code bug).  Removing a port pair that does not exist, in
    check mode, makes no mutating call but does not report changed=false:
    [_ports_get_ids] with [fail_on_error=False] and no ingress returns the
    undefined name [port_ids].  The same request outside check mode
    reports changed=false. *)
Theorem absent_port_pair_check_mode_crash :
  find_obj (c_port_pairs store) (PStr "pp9") = PNone
  /\ run RPortPair pp_absent_check store
     = ([Get KPortPair (PStr "pp9")], inr (Crash (NameError "port_ids")))
  /\ run RPortPair (invoke (params pp_absent_check) Absent false) store
     = ([Get KPortPair (PStr "pp9")], inr (Exit false [])).
Proof. split; [|split]; vm_compute; reflexivity. Qed.

(** Claim C9.  A run of any resource kind, whatever its parameters and the
    store, issues at most one create, update or delete call. *)
Theorem at_most_one_mutation r m cl :
  length (mutations (trace (run r m cl))) <= 1.
Proof. exact (at1_main r m cl). Qed.

(** Claim C10.  When the port pair group exists and needs an update
    outside check mode, the run never calls the port pair group update:
    whatever functions the module defines, no [Update] of a port pair
    group is issued; with the module's own globals the branch fails with
    a [NameError] on [_compose_port_pair_groups_args] before any mutating
    call; and had that name been defined, the one mutating call would be
    an update of a port pair. *)
Theorem ppg_update_branch_never_updates_group m cl ids t1 t2 :
  check_mode m = false -> state m = Present ->
  truthy (param m "name") = true ->
  truthy (find_obj (c_port_pair_groups cl) (param m "name")) = true ->
  PortPairGroup._port_pairs_get_ids m cl true = (t1, inl ids) ->
  PortPairGroup._needs_update m (find_obj (c_port_pair_groups cl) (param m "name")) ids
    = (t2, inl true) ->
  (forall ns id kw, ~ In (Update KPortPairGroup id kw) (trace (PortPairGroup.main_in ns m cl)))
  /\ outcome (run RPortPairGroup m cl) = inr (Crash (NameError "_compose_port_pair_groups_args"))
  /\ mutations (trace (run RPortPairGroup m cl)) = []
  /\ (forall ns f kw id,
        ns "_compose_port_pair_groups_args" = Some f -> f m cl ids = inl kw ->
        getitem (find_obj (c_port_pair_groups cl) (param m "name")) "id" = inl id ->
        mutations (trace (PortPairGroup.main_in ns m cl)) = [Update KPortPair id kw]).
Proof.
  intros Hcm Hst Hname Hppg Hids Hnu.
  destruct (ppg_update_branch_crash m cl ids t1 t2) as [Ho Hm]; try assumption.
  split; [|split; [exact Ho|split; [exact Hm|]]].
  - intros ns id kw Hin.
    pose proof (ppg_main_in_no_group_update ns m cl _ Hin) as E; discriminate E.
  - intros ns f kw id Hf Hk Hid.
    eapply ppg_update_branch_target; eassumption.
Qed.

Lemma ppg_update_branch_never_updates_group_witness :
  outcome (run RPortPairGroup ppg_shrunk store)
    = inr (Crash (NameError "_compose_port_pair_groups_args")).
Proof.
  apply (ppg_update_branch_never_updates_group ppg_shrunk store (PList [PStr "pp-id-2"])
           [Get KPortPair (PStr "pp2")] []); vm_compute; reflexivity.
Defined.

End Claims.

(** * Further properties of the modules *)

Module Extras.
Import Sample.

(** Extra X1.  In every module, every create call is of the module's own
    resource kind and is issued only when the lookup by name found nothing;
    every update and delete call is of the module's own kind and targets
    the id of the object the lookup by the supplied name found. *)
Theorem run_targets r m cl : Calls (targets r m cl) (run r m cl).
Proof.
  destruct r; unfold run, PortPair.main, PortPairGroup.main, PortPairGroup.main_in,
    FlowClassifier.main, PortChain.main; calls_tac; try target_leaf.
  all: match goal with
       | H : outcome (PortPairGroup.call_global PortPairGroup.globals
                        "_compose_port_pair_groups_args" _ _ _) = inl _ |- _ =>
           discriminate H
       end.
Qed.

(** Extra X2.  Outside check mode, with state absent, when the supplied
    name finds an object whose id is [i], the run's only mutating call is
    the delete of [i] of the module's own kind, and it reports
    changed=true. *)
Theorem absent_deletes_found r m cl i :
  check_mode m = false -> state m = Absent ->
  truthy (found r m cl) = true -> getitem (found r m cl) "id" = inl i ->
  mutations (trace (run r m cl)) = [Delete (resource_kind r) i]
  /\ outcome (run r m cl) = inr (Exit true []).
Proof.
  intros Hc Hs Ht Hi; rewrite (absent_run r m cl Hc Hs); unfold absent_body, found in *.
  destruct (truthy (param m "name")); [|discriminate Ht].
  cbv beta iota zeta delta [bind cloud_get cloud_delete lift exit_json].
  rewrite Ht, Hi; split; reflexivity.
Qed.

Lemma absent_deletes_found_witness :
  truthy (found RPortPair (invoke [("name", PStr "pp1")] Absent false) store) = true
  /\ mutations (trace (run RPortPair (invoke [("name", PStr "pp1")] Absent false) store))
     = [Delete KPortPair (PStr "pp-id-1")]
  /\ outcome (run RPortPair (invoke [("name", PStr "pp1")] Absent false) store)
     = inr (Exit true []).
Proof.
  split; [vm_compute; reflexivity|].
  apply (absent_deletes_found RPortPair (invoke [("name", PStr "pp1")] Absent false) store
           (PStr "pp-id-1")); vm_compute; reflexivity.
Defined.

(** Extra X3.  Outside check mode, with state absent: when the first run
    exits and every object matching the supplied name is the one it found,
    a second run on the store the first run left behind reports
    changed=false and makes no create, update or delete call. *)
Theorem absent_twice r m cl b x :
  check_mode m = false -> state m = Absent ->
  (forall o, In o (objects cl (resource_kind r)) -> matches (param m "name") o = true ->
             o = found r m cl) ->
  outcome (run r m cl) = inr (Exit b x) ->
  outcome (run r m (commit_all cl (trace (run r m cl)))) = inr (Exit false [])
  /\ mutations (trace (run r m (commit_all cl (trace (run r m cl))))) = [].
Proof.
  intros Hc Hs Hu He; rewrite !(absent_run r m _ Hc Hs) in *; unfold absent_body, found in *.
  set (k := resource_kind r) in *; set (n := param m "name") in *.
  destruct (truthy n) eqn:En.
  - cbv beta iota zeta delta [bind cloud_get ret] in He |- *.
    destruct (truthy (find_obj (objects cl k) n)) eqn:Eo.
    + destruct (getitem (find_obj (objects cl k) n) "id") as [i|e] eqn:Ei; cbn in He;
        [|discriminate He].
      cbn [lift cloud_delete exit_json]; cbn [fst trace app commit_all fold_left commit].
      rewrite objects_with_objects, find_obj_filter; [split; reflexivity|].
      intros o Ho Hm; rewrite (Hu o Ho Hm); exact (matches_own_id _ _ Ei).
    + cbn [exit_json]; cbn [fst trace app commit_all fold_left commit]; rewrite Eo; split; reflexivity.
  - cbv beta iota zeta delta [bind ret] in *; cbn; split; reflexivity.
Qed.

Lemma absent_twice_witness :
  outcome (run RPortPair (invoke [("name", PStr "pp1")] Absent false)
             (commit_all store (trace (run RPortPair (invoke [("name", PStr "pp1")] Absent false)
                                         store)))) = inr (Exit false [])
  /\ mutations (trace (run RPortPair (invoke [("name", PStr "pp1")] Absent false)
             (commit_all store (trace (run RPortPair (invoke [("name", PStr "pp1")] Absent false)
                                         store))))) = [].
Proof.
  apply (absent_twice RPortPair (invoke [("name", PStr "pp1")] Absent false) store true []).
  - reflexivity.
  - reflexivity.
  - intros o [<-|[<-|[]]]; vm_compute; [reflexivity | discriminate].
  - vm_compute; reflexivity.
Defined.

(** Extra X4.  Check mode predicts the real run: when the same invocation
    exits both in check mode and outside it, both runs report the same
    changed flag. *)
Theorem check_mode_predicts r m cl b1 x1 b2 x2 :
  check_mode m = false ->
  outcome (run r (with_check m true) cl) = inr (Exit b1 x1) ->
  outcome (run r m cl) = inr (Exit b2 x2) -> b1 = b2.
Proof.
  destruct r; cbn [run];
    [apply pp_check_predicts | apply ppg_check_predicts | apply fc_check_predicts
    | apply pc_check_predicts].
Qed.

Lemma check_mode_predicts_witness :
  outcome (run RPortPair (with_check pp_nsh true) store) = inr (Exit true [])
  /\ exists x2, outcome (run RPortPair pp_nsh store) = inr (Exit true x2).
Proof.
  assert (H1 : outcome (run RPortPair (with_check pp_nsh true) store) = inr (Exit true []))
    by (vm_compute; reflexivity).
  destruct (outcome (run RPortPair pp_nsh store)) as [u|[b2 x2|msg|e]] eqn:H2;
    try (vm_compute in H2; discriminate H2).
  pose proof (check_mode_predicts RPortPair pp_nsh store true [] b2 x2 eq_refl H1 H2) as <-.
  split; [exact H1 | exists x2; reflexivity].
Defined.

(** Extra X5.  When the port pair module creates a port pair, the payload
    carries as [ingress] and [egress] the ids the two supplied ports
    resolved to, and the supplied [name] and [service_function_parameters]
    as given. *)
Theorem pp_create_payload m cl : Calls (pp_create_sends m cl) (PortPair.main m cl).
Proof.
  unfold PortPair.main; calls_tac.
  all: first [ apply calls_update; exact I | apply calls_delete; exact I | apply calls_create ].
  all: cbv beta iota delta [pp_create_sends].
  all: match goal with
       | E : outcome (PortPair._ports_get_ids _ _ true) = inl _ |- _ =>
           destruct (pp_get_ids_strict _ _ _ E) as (i & e & Ri & Re & ->)
       end.
  all: repeat match goal with
              | E : outcome (lift (getitem (PDict _) _)) = inl _ |- _ =>
                  apply lift_inl in E; cbn in E; injection E as <-
              end.
  all: exists i, e; split; [exact Ri|]; split; [exact Re|].
  all: split; [rewrite !dict_lookup_set; reflexivity|].
  all: split; [rewrite !dict_lookup_set; reflexivity|].
  all: apply carries_set; [cbn; intuition discriminate|].
  all: apply carries_set; [cbn; intuition discriminate|].
  all: apply carries_collect; cbn; tauto.
Qed.

(** Extra X6.  When the port pair group module creates a port pair group,
    the payload's [port_pairs] is the list of the ids the supplied port
    pairs resolved to, one for each name and in the order given, and the
    supplied [name] and [port_pair_group_parameters] are sent as given. *)
Theorem ppg_create_payload m cl : Calls (ppg_create_sends m cl) (PortPairGroup.main m cl).
Proof.
  unfold PortPairGroup.main, PortPairGroup.main_in; calls_tac.
  all: first [ apply calls_update; exact I | apply calls_delete; exact I | apply calls_create ].
  all: cbv beta iota delta [ppg_create_sends].
  all: match goal with
       | E : outcome (PortPairGroup._port_pairs_get_ids _ _ true) = inl _ |- _ =>
           destruct (ppg_get_ids_strict _ _ _ E) as (names & ids & Hi & Hf & ->)
       end.
  all: match goal with
       | E : outcome (PortPairGroup.call_global _ _ _ _ _) = inl _ |- _ =>
           cbv [PortPairGroup.call_global PortPairGroup.globals String.eqb Ascii.eqb Bool.eqb
                lift outcome snd] in E; injection E as <-
       end.
  all: exists names, ids; split; [exact Hi|]; split; [exact Hf|].
  all: split; [unfold PortPairGroup._compose_port_pair_group_args;
               rewrite dict_lookup_set, String.eqb_refl; reflexivity|].
  all: apply carries_set; [cbn; intuition discriminate|].
  all: apply carries_collect; cbn; tauto.
Qed.

(** Extra X7.  When the port chain module creates a port chain, the
    payload's [port_pair_groups] and [flow_classifiers] are the lists of
    the ids the supplied names resolved to, one for each name and in the
    order given. *)
Theorem pc_create_payload m cl : Calls (pc_create_sends m cl) (PortChain.main m cl).
Proof.
  unfold PortChain.main; calls_tac.
  all: first [ apply calls_update; exact I | apply calls_delete; exact I | apply calls_create ].
  all: cbv beta iota delta [pc_create_sends].
  all: match goal with
       | E : outcome (PortChain._port_chains_get_ids _ _ true) = inl _ |- _ =>
           destruct (pc_get_ids_strict _ _ _ E)
             as (gn & gi & fn & fi & Tg & Tf & Ig & Fg & If & Ff & ->)
       end.
  all: match goal with
       | E : outcome (PortChain._compose_port_chain_args _ _) = inl _ |- _ =>
           unfold PortChain._compose_port_chain_args in E; rename E into Hk
       end.
  all: exists gn, gi, fn, fi; repeat split; try assumption.
  all: eapply compose_loop_lookup;
         [ exact Hk | cbn; tauto | exact nodup_pc_options
         | apply truthy_not_none; assumption | reflexivity ].
Qed.

(** Extra X8.  Outside check mode, with state present, when no flow
    classifier is found under the supplied name and each given logical port
    either finds no port or finds one with an id, the run creates the flow
    classifier and exits with changed=true: a logical port is sent as the id
    it resolves to, and one that names no port is left out of the payload
    without any error. *)
Theorem fc_payload_ports m cl :
  check_mode m = false -> state m = Present ->
  truthy (found RFlowClassifier m cl) = false ->
  ports_lookup_ok cl m ->
  exists kw x,
    mutations (trace (run RFlowClassifier m cl)) = [Create KFlowClassifier kw]
    /\ outcome (run RFlowClassifier m cl) = inr (Exit true x)
    /\ (forall key, In key fc_ports -> dict_lookup key kw = port_id_of cl (param m key))
    /\ (forall key, In key fc_ports ->
          find_obj (c_ports cl) (param m key) = PNone -> dict_lookup key kw = None).
Proof.
  intros Hc Hs Hf Hl.
  destruct (fc_get_ids_returns m cl Hl) as [d Hd].
  destruct (fc_compose_returns m d) as [kw Hkw].
  assert (Hv : forall key, In key fc_ports -> dict_lookup key kw = port_id_of cl (param m key)).
  { intros key Hk; rewrite (fc_compose_ports m d kw key ltac:(rewrite Hkw; reflexivity) Hk).
    destruct (fc_get_ids_value m cl _ Hd) as (d' & E & Hd'); injection E as <-; exact (Hd' key Hk). }
  exists kw; eexists; split; [|split; [|split; [exact Hv|]]].
  3:{ intros key Hk Hn; rewrite (Hv key Hk); unfold port_id_of; rewrite Hn.
      destruct (is_not_none (param m key)); reflexivity. }
  all: cbn [run]; unfold FlowClassifier.main; cbv zeta.
  all: unfold found in Hf; cbn [resource_kind] in Hf.
  all: rewrite ?mutations_bind, ?outcome_bind.
  all: destruct (truthy (param m "name")); cbn [cloud_get ret outcome trace fst snd mutations filter is_mutating app].
  all: rewrite ?Hf, Hc, Hs; cbn [negb truthy].
  all: rewrite ?mutations_bind, ?outcome_bind, Hd.
  all: pose proof (avoid_mutations _ (calls_fc_get_ids _ (gets_ok_mutating) m cl false)) as Hm.
  all: try rewrite Hm; cbn [app].
  all: rewrite Hkw; cbn [bind cloud_create lift getitem created_obj dict_lookup String.eqb app
                          exit_json trace outcome fst snd mutations filter is_mutating].
  all: reflexivity.
Qed.

Lemma fc_payload_ports_witness :
  exists kw x,
    mutations (trace (run RFlowClassifier fc_lost_src store)) = [Create KFlowClassifier kw]
    /\ outcome (run RFlowClassifier fc_lost_src store) = inr (Exit true x)
    /\ dict_lookup "logical_source_port" kw = None
    /\ dict_lookup "logical_destination_port" kw = Some (PStr "p2-id").
Proof.
  destruct (fc_payload_ports fc_lost_src store eq_refl eq_refl eq_refl) as (kw & x & H1 & H2 & H3 & H4).
  - intros key [<-|[<-|[]]] _; [left; reflexivity | right; eexists; reflexivity].
  - exists kw, x; split; [exact H1 | split; [exact H2 | split]].
    + apply (H4 "logical_source_port"); [left; reflexivity | reflexivity].
    + rewrite (H3 "logical_destination_port" (or_intror (or_introl eq_refl))); reflexivity.
Defined.

(** Extra X9.  Outside check mode, with state present, the port pair
    module requires [ingress] and then [egress] before anything else, also
    when the port pair already exists: without a non-empty [ingress] it
    fails with "Parameter 'ingress' is required in Sfc Port Pair Create",
    and with [ingress] but without a non-empty [egress] with the matching
    [egress] message, with no create, update or delete call. *)
Theorem pp_requires_ports m cl :
  check_mode m = false -> state m = Present ->
  (truthy (param m "ingress") = false ->
   outcome (PortPair.main m cl)
   = inr (Fail "Parameter 'ingress' is required in Sfc Port Pair Create")
   /\ mutations (trace (PortPair.main m cl)) = [])
  /\ (truthy (param m "ingress") = true -> truthy (param m "egress") = false ->
      outcome (PortPair.main m cl)
      = inr (Fail "Parameter 'egress' is required in Sfc Port Pair Create")
      /\ mutations (trace (PortPair.main m cl)) = []).
Proof.
  intros Hc Hs; split; [intros Hi | intros Hi He]; apply pp_main_stops; auto;
    unfold PortPair._ports_get_ids; cbv zeta; rewrite Hi; cbn [negb]; [reflexivity|].
  rewrite He; reflexivity.
Qed.

Lemma pp_requires_ports_witness :
  truthy (found RPortPair pp1_no_ports store) = true
  /\ outcome (PortPair.main pp1_no_ports store)
     = inr (Fail "Parameter 'ingress' is required in Sfc Port Pair Create").
Proof.
  split; [vm_compute; reflexivity|].
  apply (proj1 (pp_requires_ports pp1_no_ports store eq_refl eq_refl) eq_refl).
Defined.

(** Extra X10.  In check mode the port pair module crashes with a
    [NameError] on [port_ids] whenever [ingress] or [egress] is missing or
    empty, whatever the requested state, and makes no create, update or
    delete call. *)
Theorem pp_check_mode_needs_ports m cl :
  check_mode m = true ->
  truthy (param m "ingress") = false \/ truthy (param m "egress") = false ->
  outcome (PortPair.main m cl) = inr (Crash (NameError "port_ids"))
  /\ mutations (trace (PortPair.main m cl)) = [].
Proof.
  intros Hc Hp; unfold PortPair.main; apply lookup_then; intros o; rewrite Hc.
  apply stop_then; [|apply calls_pp_get_ids, gets_ok_mutating].
  unfold PortPair._ports_get_ids; cbv zeta.
  destruct (truthy (param m "ingress")) eqn:Hi; cbn [negb]; [|reflexivity].
  destruct Hp as [Hp|Hp]; [discriminate Hp|]; rewrite Hp; reflexivity.
Qed.

Lemma pp_check_mode_needs_ports_witness :
  outcome (PortPair.main (with_check pp1_no_ports true) store)
  = inr (Crash (NameError "port_ids")).
Proof.
  apply (pp_check_mode_needs_ports (with_check pp1_no_ports true) store eq_refl).
  left; reflexivity.
Defined.

(** Extra X11.  Outside check mode, with state present, when the
    [port_pairs] of a port pair group request are iterated and the name at
    some position finds no port pair while every earlier name resolves,
    the run fails with "Specified port pair `<name>' was not found." for
    that name, with no create, update or delete call. *)
Theorem ppg_unresolved_port_pair m cl pre n post :
  check_mode m = false -> state m = Present ->
  truthy (param m "port_pairs") = true ->
  py_iter (param m "port_pairs") = inl (pre ++ n :: post)%list ->
  Forall (fun p => exists i, resolves cl KPortPair p i) pre ->
  find_obj (c_port_pairs cl) n = PNone ->
  outcome (PortPairGroup.main m cl)
  = inr (Fail ("Specified port pair `" ++ py_str n ++ "' was not found."))
  /\ mutations (trace (PortPairGroup.main m cl)) = [].
Proof.
  intros Hc Hs Ht Hit Hpre Hn; apply ppg_main_stops; auto.
  unfold PortPairGroup._port_pairs_get_ids; cbv zeta; rewrite Ht; cbn [negb].
  rewrite outcome_bind, Hit; cbn [lift outcome snd].
  rewrite outcome_bind, ppg_resolve_first_missing; auto.
Qed.

Lemma ppg_unresolved_port_pair_witness :
  outcome (PortPairGroup.main ppg_bad_pp store)
  = inr (Fail "Specified port pair `nope' was not found.").
Proof.
  apply (ppg_unresolved_port_pair ppg_bad_pp store [PStr "pp1"] (PStr "nope") []);
    try reflexivity.
  repeat constructor; eexists; reflexivity.
Defined.

(** Extra X12.  Outside check mode, with state present, when every port
    pair group of a port chain request resolves and the flow classifier
    name at some position finds nothing while every earlier one resolves,
    the run fails with the port pair group loop's message, "Specified port
    pair group `<name>' wat not found.", naming that flow classifier, with
    no create, update or delete call. *)
Theorem pc_unresolved_flow_classifier m cl gn pre n post :
  check_mode m = false -> state m = Present ->
  truthy (param m "port_pair_groups") = true ->
  py_iter (param m "port_pair_groups") = inl gn ->
  Forall (fun g => exists i, resolves cl KPortPairGroup g i) gn ->
  truthy (param m "flow_classifiers") = true ->
  py_iter (param m "flow_classifiers") = inl (pre ++ n :: post)%list ->
  Forall (fun f => exists i, resolves cl KFlowClassifier f i) pre ->
  find_obj (c_flow_classifiers cl) n = PNone ->
  outcome (PortChain.main m cl)
  = inr (Fail ("Specified port pair group `" ++ py_str n ++ "' wat not found."))
  /\ mutations (trace (PortChain.main m cl)) = [].
Proof.
  intros Hc Hs Tg Ig Fg Tf If Fpre Hn; apply pc_main_stops; auto.
  unfold PortChain._port_chains_get_ids; cbv zeta; rewrite Tg; cbn [negb].
  rewrite outcome_bind, Ig; cbn [lift outcome snd].
  rewrite outcome_bind; destruct (resolve_refs_all cl KPortPairGroup gn [] Fg) as [ids ->].
  rewrite Tf; cbn [negb]; rewrite outcome_bind, If; cbn [lift outcome snd].
  rewrite outcome_bind, (pc_resolve_first_missing cl KFlowClassifier pre n post [] Fpre Hn).
  reflexivity.
Qed.

Lemma pc_unresolved_flow_classifier_witness :
  outcome (PortChain.main pc_bad_fc store)
  = inr (Fail "Specified port pair group `nope' wat not found.").
Proof.
  apply (pc_unresolved_flow_classifier pc_bad_fc store [PStr "ppg1"] [] (PStr "nope") []);
    try reflexivity; repeat constructor; eexists; reflexivity.
Defined.

(** Extra X13.  The port pair group decision [_needs_update] does not
    depend on the order of the resolved port pair ids: two orderings of
    the same list give the same result. *)
Theorem ppg_needs_update_order m ppg l l' :
  Permutation l l' ->
  outcome (PortPairGroup._needs_update m ppg (PList l))
  = outcome (PortPairGroup._needs_update m ppg (PList l')).
Proof.
  intros H; unfold PortPairGroup._needs_update; cbv zeta.
  rewrite !outcome_bind; cbn [py_set]; rewrite (forallb_perm hashable _ _ H).
  destruct (forallb hashable l'); cbn [lift outcome snd]; [|reflexivity].
  rewrite !outcome_bind; destruct (getitem ppg "port_pairs"); cbn [lift outcome snd];
    [|reflexivity].
  rewrite !outcome_bind; destruct (py_set p); cbn [lift outcome snd]; [|reflexivity].
  rewrite (set_eqb_perm_l _ _ _ H); reflexivity.
Qed.

Lemma ppg_needs_update_order_witness :
  outcome (PortPairGroup._needs_update ppg_reordered ppg1 (PList [PStr "pp-id-2"; PStr "pp-id-1"]))
  = outcome (PortPairGroup._needs_update ppg_reordered ppg1
               (PList [PStr "pp-id-1"; PStr "pp-id-2"])).
Proof. apply ppg_needs_update_order; apply perm_swap. Defined.

(** Extra X14.  Outside check mode, with state present, an existing port
    pair whose [ingress] is given as anything other than the id it
    resolves to (a port name, say) is updated on every run: the run's only
    mutating call is the update of the port pair's id with the supplied
    options, [ingress] and [egress] as given. *)
Theorem pp_ports_by_name_update m cl pp i e d id :
  check_mode m = false -> state m = Present ->
  found RPortPair m cl = pp -> truthy pp = true ->
  truthy (param m "ingress") = true -> truthy (param m "egress") = true ->
  resolves cl KPort (param m "ingress") i -> resolves cl KPort (param m "egress") e ->
  py_ne (param m "ingress") i = true ->
  getitem pp "ingress" = inl d -> getitem pp "id" = inl id ->
  mutations (trace (PortPair.main m cl))
  = [Update KPortPair id (PortPair._compose_port_pair_args m)].
Proof.
  intros Hc Hs Hf Ht Ti Te Ri Re Hne Hd Hid; unfold found in Hf; cbn [resource_kind] in Hf.
  unfold PortPair.main; rewrite Hc, Hs.
  destruct (truthy (param m "name")) eqn:En; [|subst pp; discriminate Ht].
  rewrite mutations_bind; cbn [cloud_get outcome snd trace fst mutations filter is_mutating app].
  rewrite Hf, mutations_bind, (pp_get_ids_resolved m cl i e Ti Te Ri Re).
  cbn [outcome snd trace fst mutations filter is_mutating app]; rewrite Ht; cbn [negb].
  rewrite mutations_bind, (pp_needs_update_ingress m pp i e d (truthy_not_none _ Ti) Hne Hd).
  cbn [outcome snd trace fst mutations filter is_mutating app].
  rewrite mutations_bind, Hid; cbn [lift outcome snd trace fst mutations filter is_mutating app].
  rewrite mutations_bind; cbn [cloud_update outcome snd trace fst mutations filter is_mutating app].
  rewrite mutations_bind.
  destruct (getitem (updated_obj cl KPortPair id (PortPair._compose_port_pair_args m)) "id");
    reflexivity.
Qed.

Lemma pp_ports_by_name_update_witness :
  mutations (trace (PortPair.main pp1_by_port_names store))
  = [Update KPortPair (PStr "pp-id-1") (PortPair._compose_port_pair_args pp1_by_port_names)].
Proof.
  apply (pp_ports_by_name_update pp1_by_port_names store pp1 (PStr "p1-id") (PStr "p2-id")
           (PStr "p1-id") (PStr "pp-id-1")); vm_compute; reflexivity.
Defined.

End Extras.
